(** * Hand-gesture particle scene: a shallow embedding

    The development follows the three source files:
    - [types.ts]: [HandMetrics], [ShapeType];
    - [services/gestureService.ts]: [distance], [analyzeHand];
    - [components/HandParticleScene.tsx]: the shape generators ([generate],
      [shapes]), the metrics effect ([updateTargets]) and the animation
      loop ([animate]).

    Number model.  A JavaScript [number] of the scene is embedded as a real
    number: the development is about the formulas of the program, so binary64
    rounding, the rounding of a [Float32Array] store, NaN and the infinities
    are not represented there.  The landmarks of the detector are binary64
    numbers, and the five comparisons of [analyzeHand], whose outcome is a
    flag and not a quantity, are evaluated in binary64 as the program
    evaluates them ([distance64], [gt64]).  The palm position and the palm
    depth, which the scene reads as quantities, are the real values of the
    same expressions ([point], [distance]).  [fingerCount] only ever holds a
    small counter and is an integer.  [Math.random] is an oracle: a stream of
    reals of which every call consumes the head. *)

From Stdlib Require Import Floats.
From Stdlib Require Import Reals Lra Lia ZArith.
From stdpp Require Import base list option.

Open Scope R_scope.

(** ** Numbers *)

(** [Math.max] and [Math.min] of two numbers are [Rmax] and [Rmin]. *)
Definition Math_max (a b : R) : R := Rmax a b.
Definition Math_min (a b : R) : R := Rmin a b.

(** ** types.ts *)

(** The object type [{ x: number; y: number; z: number }]. *)
Record Vec3 : Type := mkVec3 { vx : R; vy : R; vz : R }.

Record HandMetrics : Type := mkHandMetrics {
  fingerCount : Z;
  isFist : bool;
  position : Vec3;
  palmDepth : R
}.

Inductive ShapeType : Type := HEART | FLOWER | PORTAL | HEXAGRAM | TREE.

#[global] Instance ShapeType_eq_dec : EqDecision ShapeType.
Proof. solve_decision. Defined.

(** ** services/gestureService.ts *)

Module Gesture.

(** A landmark of the detector, [{ x: number; y: number; z: number }]: three
    binary64 numbers. *)
Record Landmark : Type := mkLandmark { x : float; y : float; z : float }.

(** The real number a finite binary64 number stands for: its significand
    times a power of two.  An infinity or a NaN stands for no real number
    and is sent to 0; the detector delivers finite coordinates. *)
Definition value (f : float) : R :=
  match Prim2SF f with
  | S754_finite s m e =>
      (if s then - IZR (Zpos m) else IZR (Zpos m)) * powerRZ 2 e
  | _ => 0
  end.

(** The point of space a landmark stands for. *)
Definition point (l : Landmark) : Vec3 :=
  {| vx := value (x l); vy := value (y l); vz := value (z l) |}.

(** MediaPipe landmark indices. *)
Definition WRIST : nat := 0.
Definition THUMB_IP : nat := 3.
Definition THUMB_TIP : nat := 4.
Definition INDEX_FINGER_PIP : nat := 6.
Definition INDEX_FINGER_TIP : nat := 8.
Definition MIDDLE_FINGER_MCP : nat := 9.
Definition MIDDLE_FINGER_PIP : nat := 10.
Definition MIDDLE_FINGER_TIP : nat := 12.
Definition RING_FINGER_PIP : nat := 14.
Definition RING_FINGER_TIP : nat := 16.
Definition PINKY_MCP : nat := 17.
Definition PINKY_PIP : nat := 18.
Definition PINKY_TIP : nat := 20.

(** Euclidean distance between two 3D points: the expression of [distance]
    (lines 29-33) over the reals. *)
Definition distance (p1 p2 : Vec3) : R :=
  sqrt ((vx p1 - vx p2) ^ 2 + (vy p1 - vy p2) ^ 2 + (vz p1 - vz p2) ^ 2).

(** The square of [distance], which needs no square root. *)
Definition squared_distance (p1 p2 : Vec3) : R :=
  (vx p1 - vx p2) ^ 2 + (vy p1 - vy p2) ^ 2 + (vz p1 - vz p2) ^ 2.

(** [Math.pow(a, 2)] in binary64.  ECMAScript asks [Math.pow] for an
    approximation only; for the exponent 2 it is taken as the product of [a]
    with itself, rounded once. *)
Definition Math_pow2 (a : float) : float := (a * a)%float.

(** [distance] as the program evaluates it on two landmarks: the three
    differences, their squares, the two sums from left to right and
    [Math.sqrt], each rounded to the nearest binary64 number. *)
Definition distance64 (p1 p2 : Landmark) : float :=
  PrimFloat.sqrt
    (Math_pow2 (x p1 - x p2) + Math_pow2 (y p1 - y p2)
     + Math_pow2 (z p1 - z p2))%float.

(** [a > b] on binary64 numbers: false as soon as one of them is NaN. *)
Definition gt64 (a b : float) : bool := (b <? a)%float.

(** The five local constants [isThumbExtended] ... [isPinkyExtended] of
    [analyzeHand] (lines 42-52), gathered in a record so that statements can
    name them. *)
Record Extended : Type := mkExtended {
  isThumbExtended : bool;
  isIndexExtended : bool;
  isMiddleExtended : bool;
  isRingExtended : bool;
  isPinkyExtended : bool
}.

(** Reading [landmarks[i]] and then a coordinate of it throws when the index
    is out of range: the lookups are in the option monad. *)
Definition extendedDigits (landmarks : list Landmark) : option Extended :=
  thumbTip ← landmarks !! THUMB_TIP;
  pinkyMcp ← landmarks !! PINKY_MCP;
  thumbIp ← landmarks !! THUMB_IP;
  wrist ← landmarks !! WRIST;
  indexTip ← landmarks !! INDEX_FINGER_TIP;
  indexPip ← landmarks !! INDEX_FINGER_PIP;
  middleTip ← landmarks !! MIDDLE_FINGER_TIP;
  middlePip ← landmarks !! MIDDLE_FINGER_PIP;
  ringTip ← landmarks !! RING_FINGER_TIP;
  ringPip ← landmarks !! RING_FINGER_PIP;
  pinkyTip ← landmarks !! PINKY_TIP;
  pinkyPip ← landmarks !! PINKY_PIP;
  Some {|
    isThumbExtended :=
      gt64 (distance64 thumbTip pinkyMcp) (distance64 thumbIp pinkyMcp);
    isIndexExtended := gt64 (distance64 indexTip wrist) (distance64 indexPip wrist);
    isMiddleExtended :=
      gt64 (distance64 middleTip wrist) (distance64 middlePip wrist);
    isRingExtended := gt64 (distance64 ringTip wrist) (distance64 ringPip wrist);
    isPinkyExtended := gt64 (distance64 pinkyTip wrist) (distance64 pinkyPip wrist)
  |}.

(** [if (b) fingerCount++]. *)
Definition incr_if (b : bool) (fingerCount : Z) : Z :=
  if b then (fingerCount + 1)%Z else fingerCount.

Definition countFingers (e : Extended) : Z :=
  let fingerCount := 0%Z in
  let fingerCount := incr_if (isThumbExtended e) fingerCount in
  let fingerCount := incr_if (isIndexExtended e) fingerCount in
  let fingerCount := incr_if (isMiddleExtended e) fingerCount in
  let fingerCount := incr_if (isRingExtended e) fingerCount in
  let fingerCount := incr_if (isPinkyExtended e) fingerCount in
  fingerCount.

(** The flags and the count come from the binary64 comparisons; the palm
    position and the palm size are handed to the scene as the real values of
    the coordinates of landmark 9 and of [distance(wrist, middleMcp)]. *)
Definition analyzeHand (landmarks : list Landmark) : option HandMetrics :=
  e ← extendedDigits landmarks;
  let fingerCount := countFingers e in
  let isFist :=
    (fingerCount =? 0)%Z
    || ((fingerCount =? 1)%Z
        && negb (isIndexExtended e) && negb (isMiddleExtended e)
        && negb (isRingExtended e) && negb (isPinkyExtended e)) in
  palm ← landmarks !! 9%nat;
  wrist ← landmarks !! WRIST;
  middleMcp ← landmarks !! MIDDLE_FINGER_MCP;
  let position :=
    {| vx := value (x palm); vy := value (y palm); vz := value (z palm) |} in
  let palmSize := distance (point wrist) (point middleMcp) in
  Some {| fingerCount := fingerCount; isFist := isFist;
          position := position; palmDepth := palmSize |}.

(** The spec's wording of the classification: a digit, the landmark of its
    tip, of the joint the tip is compared with, and of the reference point
    both distances are measured from. *)
Inductive Digit : Type := Thumb | Index | Middle | Ring | Pinky.

Definition tip (d : Digit) : nat :=
  match d with
  | Thumb => 4 | Index => 8 | Middle => 12 | Ring => 16 | Pinky => 20
  end%nat.

Definition joint (d : Digit) : nat :=
  match d with
  | Thumb => 3 | Index => 6 | Middle => 10 | Ring => 14 | Pinky => 18
  end%nat.

Definition reference (d : Digit) : nat :=
  match d with Thumb => 17 | _ => 0 end%nat.

(** A digit is extended when its tip is farther from the reference point
    than its joint, in Euclidean distance. *)
Definition digit_extended (landmarks : list Landmark) (d : Digit) : Prop :=
  exists t j r,
    landmarks !! tip d = Some t /\ landmarks !! joint d = Some j
    /\ landmarks !! reference d = Some r
    /\ distance (point t) (point r) > distance (point j) (point r).

(** The amended wording of the classification: the same comparison on
    distances computed in binary64.  It is written with the operations of
    the IEEE 754 standard on significands and exponents ([SpecFloat]) and not
    with those of the machine: the difference of each coordinate, its square,
    the sums, the square root, every one rounded to nearest. *)
Definition ieee_square_difference (a b : float) : spec_float :=
  let d := SF64sub (Prim2SF a) (Prim2SF b) in SF64mul d d.

Definition ieee_distance (p1 p2 : Landmark) : spec_float :=
  SF64sqrt
    (SF64add
       (SF64add (ieee_square_difference (x p1) (x p2))
                (ieee_square_difference (y p1) (y p2)))
       (ieee_square_difference (z p1) (z p2))).

Definition computed_extended (landmarks : list Landmark) (d : Digit) : bool :=
  match landmarks !! tip d, landmarks !! joint d, landmarks !! reference d with
  | Some t, Some j, Some r => SFltb (ieee_distance j r) (ieee_distance t r)
  | _, _, _ => false
  end.

Definition classified (e : Extended) (d : Digit) : bool :=
  match d with
  | Thumb => isThumbExtended e
  | Index => isIndexExtended e
  | Middle => isMiddleExtended e
  | Ring => isRingExtended e
  | Pinky => isPinkyExtended e
  end.

Definition digits : list Digit := [Thumb; Index; Middle; Ring; Pinky].

End Gesture.

(** ** components/HandParticleScene.tsx *)

(** *** Effects: [Math.random], typed arrays, loops *)

(** The oracle behind [Math.random]: [draws] lists the values the calls will
    return and [used] counts the calls made so far. *)
Record Rng : Type := mkRng { draws : nat -> R; used : nat }.

(** Computations that call [Math.random] and touch typed arrays.  [None]
    stands for an exception or for an index outside a typed array.  (In
    JavaScript a typed-array read outside the bounds yields [undefined] and a
    store outside the bounds is dropped; the model flags both, so that "every
    index is within bounds" is what success of a computation means.) *)
Definition M (A : Type) : Type := Rng -> option (A * Rng).

#[global] Instance M_ret : MRet M := fun A a s => Some (a, s).
#[global] Instance M_bind : MBind M := fun A B f m s =>
  match m s with
  | Some (a, s') => f a s'
  | None => None
  end.

Definition lift {A : Type} (o : option A) : M A := fun s =>
  match o with
  | Some a => Some (a, s)
  | None => None
  end.

Definition Math_random : M R := fun s =>
  Some (draws s (used s), {| draws := draws s; used := S (used s) |}).

(** [new Float32Array(n)]: [n] zeros. *)
Definition new_Float32Array (n : nat) : list R := replicate n 0.

(** [arr[i]] read as a number. *)
Definition load (arr : list R) (i : nat) : M R := lift (arr !! i).

(** [arr[i] = v]. *)
Definition store (i : nat) (v : R) (arr : list R) : M (list R) :=
  if decide (i < length arr)%nat then mret (<[i := v]> arr) else lift None.

(** [arr[i] += rhs]: the old element is read, then [rhs] is evaluated, then
    the sum is stored. *)
Definition add_assign (arr : list R) (i : nat) (rhs : M R) : M (list R) :=
  old ← load arr i;
  v ← rhs;
  store i (old + v) arr.

(** [dst.set(src)]: copies [src] over the front of [dst]; a [RangeError]
    when [src] is longer than [dst]. *)
Definition typed_set (dst src : list R) : option (list R) :=
  if decide (length src <= length dst)%nat
  then Some (src ++ drop (length src) dst)
  else None.

(** [for (let i = i0; i < i0 + n; i++) acc = body(i, acc)]. *)
Fixpoint for_loop {A : Type} (n i : nat) (body : nat -> A -> M A) (acc : A)
  : M A :=
  match n with
  | O => mret acc
  | S n' => acc' ← body i acc; for_loop n' (S i) body acc'
  end.

(** The [i]-th point of a positions buffer. *)
Definition point_at (arr : list R) (i : nat) : option Vec3 :=
  px ← arr !! (i * 3)%nat;
  py ← arr !! (i * 3 + 1)%nat;
  pz ← arr !! (i * 3 + 2)%nat;
  Some {| vx := px; vy := py; vz := pz |}.

(** *** Constants *)

Definition PARTICLE_COUNT : nat := 4000.
Definition POS_LERP_FACTOR : R := 0.08.
Definition COLOR_LERP_FACTOR : R := 0.05.

(** *** Shape generators

    The generators are written over the particle count, which the source
    fixes to [PARTICLE_COUNT]. *)

Definition generate (count : nat) (fn : nat -> M Vec3) : M (list R) :=
  let arr := new_Float32Array (count * 3) in
  for_loop count 0 (fun i arr =>
    p ← fn i;
    arr ← store (i * 3) (vx p) arr;
    arr ← store (i * 3 + 1) (vy p) arr;
    store (i * 3 + 2) (vz p) arr) arr.

Definition heart (count i : nat) : M Vec3 :=
  let t := INR i / INR count * PI * 2 in
  u ← Math_random;
  let r := 0.5 + u * 0.1 in
  let x := 16 * sin t ^ 3 in
  let y := 13 * cos t - 5 * cos (2 * t) - 2 * cos (3 * t) - cos (4 * t) in
  u ← Math_random;
  let z := (u - 0.5) * 4 in
  mret {| vx := x * r; vy := y * r; vz := z |}.

Definition flower (count i : nat) : M Vec3 :=
  let k := 5 in
  let t := INR i / INR count * PI * 2 * 12 in
  let rad := 8 * cos (k * t) + 3 in
  u ← Math_random;
  mret {| vx := rad * cos t; vy := rad * sin t; vz := (u - 0.5) * 3 |}.

Definition portal (i : nat) : M Vec3 :=
  let layer := (i mod 3)%nat in
  let rad := 0 in
  u ← Math_random;
  let angle := u * PI * 2 in
  rad ← (if decide (layer = 0%nat)
         then u ← Math_random; mret (10 + u * 1.5) else mret rad);
  rad ← (if decide (layer = 1%nat)
         then u ← Math_random; mret (8 + u * 1.0) else mret rad);
  rad ← (if decide (layer = 2%nat)
         then u ← Math_random; mret (u * 9) else mret rad);
  u ← Math_random;
  let noise := (u - 0.5) * 0.5 in
  u ← Math_random;
  mret {| vx := (rad + noise) * cos angle;
          vy := (rad + noise) * sin angle;
          vz := (u - 0.5) * 0.5 |}.

Definition hexagram (count i : nat) : M Vec3 :=
  let angle := INR i / INR count * PI * 2 in
  let rad := 9 * (1.2 + 0.3 * sin (6 * angle)) in
  u ← Math_random;
  mret {| vx := rad * cos angle; vy := rad * sin angle; vz := (u - 0.5) * 2 |}.

Definition tree (count i : nat) : M Vec3 :=
  let pct := INR i / INR count in
  let height := 18 in
  let y := 8 - pct * height in
  let radius := pct * 8 in
  let angle := pct * PI * 20 in
  mret {| vx := radius * cos angle; vy := y; vz := radius * sin angle |}.

(** The generator function of a shape. *)
Definition shape_fn (count : nat) (shape : ShapeType) : nat -> M Vec3 :=
  match shape with
  | HEART => heart count
  | FLOWER => flower count
  | PORTAL => portal
  | HEXAGRAM => hexagram count
  | TREE => tree count
  end.

(** The memoised table: the five sets are generated once, in the order of
    the object literal. *)
Definition shapes (count : nat) : M (ShapeType -> list R) :=
  h ← generate count (shape_fn count HEART);
  f ← generate count (shape_fn count FLOWER);
  p ← generate count (shape_fn count PORTAL);
  x ← generate count (shape_fn count HEXAGRAM);
  t ← generate count (shape_fn count TREE);
  mret (fun shape =>
    match shape with
    | HEART => h | FLOWER => f | PORTAL => p | HEXAGRAM => x | TREE => t
    end).

(** *** Scene state *)

(** A [THREE.Color]: its three channels. *)
Record Color : Type := mkColor { cr : R; cg : R; cb : R }.

(** Modelled from the spec: [THREE.Color.lerp] is three.js code, not under
    src/.  [c.lerp(target, alpha)] moves every channel of [c] by [alpha]
    times its distance to the channel of [target] (spec 4.4, step 1). *)
Definition Color_lerp (c target : Color) (alpha : R) : Color :=
  {| cr := cr c + (cr target - cr c) * alpha;
     cg := cg c + (cg target - cg c) * alpha;
     cb := cb c + (cb target - cb c) * alpha |}.

(** Modelled from the spec: [THREE.Vector3.lerp] is three.js code, not under
    src/.  [v.lerp(target, alpha)] moves every component of [v] by [alpha]
    times its distance to the component of [target] (spec 4.4, step 4). *)
Definition Vector3_lerp (v target : Vec3) (alpha : R) : Vec3 :=
  {| vx := vx v + (vx target - vx v) * alpha;
     vy := vy v + (vy target - vy v) * alpha;
     vz := vz v + (vz target - vz v) * alpha |}.

(** The refs of the component and the state of the [THREE.Points] object it
    owns. *)
Record Scene : Type := mkScene {
  targetPositions : list R;   (* targetPositionsRef.current *)
  currentShape : ShapeType;   (* currentShapeRef.current *)
  rotationSpeed : R;          (* rotationSpeedRef.current *)
  groupScale : R;             (* groupScaleRef.current *)
  currentColor : Color;       (* currentColorRef.current *)
  targetColor : Color;        (* targetColorRef.current *)
  positions : list R;         (* geometry.attributes.position.array *)
  materialColor : Color;      (* particles.material.color *)
  rotation_z : R;             (* particles.rotation.z *)
  rotation_y : R;             (* particles.rotation.y *)
  scale : Vec3                (* particles.scale *)
}.

Definition set_target (shape : ShapeType) (buf : list R) (st : Scene) : Scene :=
  mkScene buf shape (rotationSpeed st) (groupScale st) (currentColor st)
    (targetColor st) (positions st) (materialColor st) (rotation_z st)
    (rotation_y st) (scale st).

Definition set_targetColor (c : Color) (st : Scene) : Scene :=
  mkScene (targetPositions st) (currentShape st) (rotationSpeed st)
    (groupScale st) (currentColor st) c (positions st) (materialColor st)
    (rotation_z st) (rotation_y st) (scale st).

Definition set_physics (groupScale' rotationSpeed' : R) (st : Scene) : Scene :=
  mkScene (targetPositions st) (currentShape st) rotationSpeed' groupScale'
    (currentColor st) (targetColor st) (positions st) (materialColor st)
    (rotation_z st) (rotation_y st) (scale st).

(** The scene as the initialisation effect leaves it.  [color0] is
    [new THREE.Color(0xff0055)]; a fresh [Object3D] has rotation 0 and
    scale 1. *)
Definition mount (table : ShapeType -> list R) (count : nat) (color0 : Color)
  : option Scene :=
  let positions := new_Float32Array (count * 3) in
  let startShape := table HEART in
  positions ← typed_set positions startShape;
  target ← typed_set (new_Float32Array (count * 3)) (table HEART);
  Some {| targetPositions := target; currentShape := HEART;
          rotationSpeed := 0.001; groupScale := 1.0;
          currentColor := color0; targetColor := color0;
          positions := positions; materialColor := color0;
          rotation_z := 0; rotation_y := 0;
          scale := {| vx := 1; vy := 1; vz := 1 |} |}.

(** *** The metrics effect (lines 236-275) *)

Definition selectShape (current : ShapeType) (fingerCount : Z) : ShapeType :=
  if (fingerCount =? 1)%Z then HEART
  else if (fingerCount =? 2)%Z then FLOWER
  else if (fingerCount =? 3)%Z then PORTAL
  else if (fingerCount =? 4)%Z then HEXAGRAM
  else if (fingerCount =? 5)%Z then TREE
  else current.

(** One run of the effect on a metrics record.  [table] is the memoised
    [shapes]; [setHSL h s l] is the colour three.js makes of a hue, a
    saturation and a lightness. *)
Definition updateTargets (table : ShapeType -> list R)
    (setHSL : R -> R -> R -> Color) (handMetrics : HandMetrics) (st : Scene)
  : option Scene :=
  (* 1. Shape selection *)
  st ← (if negb (isFist handMetrics) then
          let newShape := selectShape (currentShape st) (fingerCount handMetrics) in
          if decide (newShape <> currentShape st) then
            target ← typed_set (targetPositions st) (table newShape);
            Some (set_target newShape target st)
          else Some st
        else Some st);
  (* 2. Color mode *)
  let st :=
    if isFist handMetrics then
      let hue := Math_max 0 (Math_min 1 (1 - vx (position handMetrics))) in
      set_targetColor (setHSL hue 1.0 0.5) st
    else st in
  (* 3. Physics and dynamics *)
  let st :=
    if isFist handMetrics then set_physics 0.4 0.15 st
    else
      let depthScale := Math_max 0.05 (Math_min 0.5 (palmDepth handMetrics)) in
      set_physics (1.0 + (1 - depthScale * 2)) 0.002 st in
  Some st.

(** The effect itself: nothing happens while [handMetrics] is [null]. *)
Definition metricsEffect (table : ShapeType -> list R)
    (setHSL : R -> R -> R -> Color) (handMetrics : option HandMetrics)
    (st : Scene) : option Scene :=
  match handMetrics with
  | None => Some st
  | Some m => updateTargets table setHSL m st
  end.

(** *** The animation loop (lines 178-220) *)

(** The body of the particle loop for particle [i], over the position
    smoothing factor, which the source fixes to [POS_LERP_FACTOR]. *)
Definition moveParticle (factor : R) (target : list R) (i : nat)
    (positions : list R) : M (list R) :=
  let ix := (i * 3)%nat in
  let iy := (i * 3 + 1)%nat in
  let iz := (i * 3 + 2)%nat in
  (* Interpolate positions *)
  positions ← add_assign positions ix
    (t ← load target ix; p ← load positions ix; mret ((t - p) * factor));
  positions ← add_assign positions iy
    (t ← load target iy; p ← load positions iy; mret ((t - p) * factor));
  positions ← add_assign positions iz
    (t ← load target iz; p ← load positions iz; mret ((t - p) * factor));
  (* Jitter *)
  positions ← add_assign positions ix
    (u ← Math_random; mret ((u - 0.5) * 0.05));
  positions ← add_assign positions iy
    (u ← Math_random; mret ((u - 0.5) * 0.05));
  add_assign positions iz
    (u ← Math_random; mret ((u - 0.5) * 0.05)).

(** The particle loop, over the particle count, which the source fixes to
    [PARTICLE_COUNT]. *)
Definition moveParticles (count : nat) (factor : R) (target positions : list R)
  : M (list R) :=
  for_loop count 0 (moveParticle factor target) positions.

(** One animation frame of a mounted scene. *)
Definition animateWith (count : nat) (factor : R) (st : Scene) : M Scene :=
  let target := targetPositions st in
  (* Color dynamics *)
  let currentColor' := Color_lerp (currentColor st) (targetColor st) COLOR_LERP_FACTOR in
  (* Particle movement *)
  positions' ← moveParticles count factor target (positions st);
  (* Global physics *)
  let rotation_z' := rotation_z st + rotationSpeed st in
  let rotation_y' := rotation_y st + rotationSpeed st * 0.5 in
  let g := groupScale st in
  let scale' := Vector3_lerp (scale st) {| vx := g; vy := g; vz := g |} 0.1 in
  mret {| targetPositions := target; currentShape := currentShape st;
          rotationSpeed := rotationSpeed st; groupScale := groupScale st;
          currentColor := currentColor'; targetColor := targetColor st;
          positions := positions'; materialColor := currentColor';
          rotation_z := rotation_z'; rotation_y := rotation_y';
          scale := scale' |}.

Definition animate (st : Scene) : M Scene :=
  animateWith PARTICLE_COUNT POS_LERP_FACTOR st.

(** [n] consecutive frames with no metrics update in between. *)
Fixpoint frames (count : nat) (factor : R) (n : nat) (st : Scene) : M Scene :=
  match n with
  | O => mret st
  | S n' => st' ← animateWith count factor st; frames count factor n' st'
  end.

(** *** Well-formedness *)

(** Every draw of the oracle is in [[0, 1)], as [Math.random] promises. *)
Definition unit_draws (s : Rng) : Prop := forall k, 0 <= draws s k < 1.

(** Both buffers of the scene and every cached point set hold [count]
    points. *)
Definition table_sized (count : nat) (table : ShapeType -> list R) : Prop :=
  forall shape, length (table shape) = (count * 3)%nat.

Definition scene_sized (count : nat) (st : Scene) : Prop :=
  length (targetPositions st) = (count * 3)%nat
  /\ length (positions st) = (count * 3)%nat.

(** What [generate] needs of a generator function: on every index below
    [count] it returns a point satisfying [P], and it only consumes draws. *)
Definition generates (count : nat) (fn : nat -> M Vec3)
    (P : nat -> Vec3 -> Prop) : Prop :=
  forall i s, (i < count)%nat -> unit_draws s ->
    exists p s', fn i s = Some (p, s') /\ P i p /\ draws s' = draws s.

(** Both buffers of the scene are empty. *)
Definition positions_empty (st : Scene) : Prop :=
  positions st = [] /\ targetPositions st = [].

(** The scenes a session goes through: the mounted scene, then metrics
    updates and animation frames in any order. *)
Inductive reachable (count : nat) (table : ShapeType -> list R)
    (setHSL : R -> R -> R -> Color) (color0 : Color) : Scene -> Prop :=
| reach_mount st :
    mount table count color0 = Some st ->
    reachable count table setHSL color0 st
| reach_update m st st' :
    reachable count table setHSL color0 st ->
    updateTargets table setHSL m st = Some st' ->
    reachable count table setHSL color0 st'
| reach_frame st st' s s' :
    reachable count table setHSL color0 st ->
    animateWith count POS_LERP_FACTOR st s = Some (st', s') ->
    reachable count table setHSL color0 st'.

(** *** The documented point sets (spec 4.2) *)

Definition heart_point (count i : nat) (p : Vec3) : Prop :=
  let t := INR i / INR count * (2 * PI) in
  exists r,
    0.5 <= r < 0.6
    /\ vx p = 16 * sin t ^ 3 * r
    /\ vy p = (13 * cos t - 5 * cos (2 * t) - 2 * cos (3 * t) - cos (4 * t)) * r
    /\ -2 <= vz p < 2.

Definition flower_point (count i : nat) (p : Vec3) : Prop :=
  let t := INR i / INR count * (2 * PI) in
  let t' := t * 12 in
  let rad := 8 * cos (5 * t') + 3 in
  vx p = rad * cos t' /\ vy p = rad * sin t' /\ -1.5 <= vz p < 1.5.

Definition portal_point (i : nat) (p : Vec3) : Prop :=
  exists rad angle noise,
    match (i mod 3)%nat with
    | 0%nat => 10 <= rad < 11.5
    | 1%nat => 8 <= rad < 9
    | _ => 0 <= rad < 9
    end
    /\ 0 <= angle < 2 * PI
    /\ -0.25 <= noise < 0.25
    /\ vx p = (rad + noise) * cos angle
    /\ vy p = (rad + noise) * sin angle
    /\ -0.25 <= vz p < 0.25.

Definition hexagram_point (count i : nat) (p : Vec3) : Prop :=
  let angle := INR i / INR count * (2 * PI) in
  let rad := 9 * (1.2 + 0.3 * sin (6 * angle)) in
  vx p = rad * cos angle /\ vy p = rad * sin angle /\ -1 <= vz p < 1.

Definition tree_point (count i : nat) (p : Vec3) : Prop :=
  let pct := INR i / INR count in
  let radius := pct * 8 in
  let angle := pct * (2 * PI) * 10 in
  vy p = 8 - pct * 18
  /\ -10 < vy p <= 8
  /\ 0 <= radius < 8
  /\ vx p = radius * cos angle
  /\ vz p = radius * sin angle.

Definition shape_point (count : nat) (shape : ShapeType) (i : nat) (p : Vec3)
  : Prop :=
  match shape with
  | HEART => heart_point count i p
  | FLOWER => flower_point count i p
  | PORTAL => portal_point i p
  | HEXAGRAM => hexagram_point count i p
  | TREE => tree_point count i p
  end.

(** *** The documented frame (spec 4.4) *)

(** [new] is [old] moved by the fraction [alpha] of its distance to
    [target]. *)
Definition closes_gap (alpha old target new : R) : Prop :=
  new - old = alpha * (target - old).

(** The jitter made of draw [j] of a frame that starts in oracle state
    [s]. *)
Definition jitter (s : Rng) (j : nat) : R :=
  (draws s (used s + j) - 0.5) * 0.05.

(** Coordinate [j] after one frame: the old value moved by [factor] of its
    distance to the target, plus the jitter made of draw [j] of the frame. *)
Definition moved (factor : R) (target positions : list R) (s : Rng) (j : nat)
  : option R :=
  p ← positions !! j;
  t ← target !! j;
  Some (p + (t - p) * factor + jitter s j).

(** The distance of coordinate [j] to its target; 0 outside the buffers. *)
Definition gap (target positions : list R) (j : nat) : R :=
  match positions !! j, target !! j with
  | Some p, Some t => Rabs (p - t)
  | _, _ => 0
  end.

(** The largest jitter of one frame, and the band around the target inside
    which the jitter keeps a coordinate at smoothing factor [factor]. *)
Definition JITTER_BOUND : R := 0.025.
Definition steady_band (factor : R) : R := JITTER_BOUND / factor.

(** *** The documented mapper (spec 4.3) *)

(** The shapes in the order the finger counts 1..5 select them. *)
Definition shape_order : list ShapeType := [HEART; FLOWER; PORTAL; HEXAGRAM; TREE].

(** [clamp v lo hi]: [v] brought back into [[lo, hi]]. *)
Definition clamp (v lo hi : R) : R :=
  if Rlt_dec v lo then lo else if Rlt_dec hi v then hi else v.

(** *** Sample data: a one-particle scene *)

Definition sample_table (shape : ShapeType) : list R :=
  match shape with
  | HEART => [1; 1; 1]
  | FLOWER => [2; 2; 2]
  | PORTAL => [3; 3; 3]
  | HEXAGRAM => [4; 4; 4]
  | TREE => [5; 5; 5]
  end.

(** A stand-in for [setHSL] that keeps hue, saturation and lightness as the
    three channels. *)
Definition sample_setHSL (h s l : R) : Color := mkColor h s l.

(** [0xff0055]: red 255, green 0, blue 85, each out of 255. *)
Definition sample_color : Color := mkColor 1 0 (85 / 255).

Definition sample_scene : Scene :=
  {| targetPositions := [1; 1; 1]; currentShape := HEART;
     rotationSpeed := 0.001; groupScale := 1.0;
     currentColor := sample_color; targetColor := sample_color;
     positions := [1; 1; 1]; materialColor := sample_color;
     rotation_z := 0; rotation_y := 0;
     scale := {| vx := 1; vy := 1; vz := 1 |} |}.

(** The one-particle scene on its way from HEART to FLOWER. *)
Definition sample_moving : Scene :=
  {| targetPositions := [2; 2; 2]; currentShape := FLOWER;
     rotationSpeed := 0.002; groupScale := 1.0;
     currentColor := sample_color; targetColor := sample_color;
     positions := [1; 1; 1]; materialColor := sample_color;
     rotation_z := 0; rotation_y := 0;
     scale := {| vx := 1; vy := 1; vz := 1 |} |}.

(** An open hand showing two fingers, half way across the frame, at palm
    depth 0.5; and a fist at the same place. *)
Definition sample_open : HandMetrics :=
  {| fingerCount := 2; isFist := false;
     position := mkVec3 0.5 0.5 0; palmDepth := 0.5 |}.

Definition sample_fist : HandMetrics :=
  {| fingerCount := 0; isFist := true;
     position := mkVec3 0.5 0.5 0; palmDepth := 0.5 |}.

(** Two hands laid out on the x axis, given by the abscissa of each of the
    21 landmarks: the wrist at 0, the pinky MCP at 1, the thumb stretched
    (IP at 2, tip at 3); the four fingers curled (PIP at 2, tip at 1) in the
    first hand and stretched (PIP at 2, tip at 3) in the second. *)
Definition on_axis (c : float) : Gesture.Landmark := Gesture.mkLandmark c 0 0.

Definition sample_thumb_hand : list Gesture.Landmark :=
  on_axis <$>
    [0; 1; 1; 2; 3;  1; 2; 1; 1;  1; 2; 1; 1;  1; 2; 1; 1;  1; 2; 1; 1]%float.

Definition sample_open_hand : list Gesture.Landmark :=
  on_axis <$>
    [0; 1; 1; 2; 3;  1; 2; 1; 3;  1; 2; 1; 3;  1; 2; 1; 3;  1; 2; 1; 3]%float.

(** *** Sample hands in the normalised image space

    A hand is given by its wrist, the thumb IP joint and tip, the pinky MCP,
    and one PIP joint and one tip shared by the four fingers; the landmarks
    the extractor does not compare are at the pinky MCP, but for landmark 9,
    the middle finger MCP. *)
Definition sample_hand (wrist thumbIp thumbTip pinkyMcp middleMcp pip fingerTip
    : Gesture.Landmark) : list Gesture.Landmark :=
  [wrist; pinkyMcp; pinkyMcp; thumbIp; thumbTip;
   pinkyMcp; pip; pinkyMcp; fingerTip;
   middleMcp; pip; pinkyMcp; fingerTip;
   pinkyMcp; pip; pinkyMcp; fingerTip;
   pinkyMcp; pip; pinkyMcp; fingerTip].

Definition in_image (a b : float) : Gesture.Landmark := Gesture.mkLandmark a b 0.

(** The wrist at the bottom of the image, the thumb stretched away from the
    pinky MCP (IP at 0.25 of it, tip at 0.375), the fingers curled: their
    tips, at 0.125 of the wrist, are closer to it than the PIP joints, at
    0.25. *)
Definition sample_thumb_only : list Gesture.Landmark :=
  sample_hand (in_image 0.5 0.75) (in_image 0.375 0.625) (in_image 0.25 0.625)
    (in_image 0.625 0.625) (in_image 0.5 0.625)
    (in_image 0.5 0.5) (in_image 0.5 0.625).


(** The thumb-only hand with the four finger tips moved from the PIP joints
    towards the camera by 2^-30 (about 9.3e-10, which is a single-precision
    number as well): every tip is farther from the wrist than its PIP joint,
    by less than binary64 tells apart at that distance. *)
Definition sample_near_tie : list Gesture.Landmark :=
  sample_hand (in_image 0.5 0.75) (in_image 0.375 0.625) (in_image 0.25 0.625)
    (in_image 0.625 0.625) (in_image 0.5 0.625)
    (in_image 0.5 0.5) (Gesture.mkLandmark 0.5 0.5 0x1p-30).

(** A hand off the grid, the coordinates being the binary64 numbers nearest
    to 0.3, 0.2, 0.35, 0.4, 0.45, 0.55, 0.6, 0.7 and 0.8: index and middle
    stretched, ring and pinky curled, the thumb folded. *)
Definition sample_two_fingers : list Gesture.Landmark :=
  let wrist := in_image 0.5 0x1.999999999999ap-1 in
  let pinkyMcp := in_image 0x1.3333333333333p-1 0x1.199999999999ap-1 in
  let thumbIp := in_image 0x1.6666666666666p-2 0x1.3333333333333p-1 in
  let thumbTip := in_image 0x1.ccccccccccccdp-2 0x1.199999999999ap-1 in
  let middleMcp := in_image 0.5 0x1.199999999999ap-1 in
  let pip := in_image 0x1.6666666666666p-2 0x1.999999999999ap-2 in
  let stretched := in_image 0x1.3333333333333p-2 0x1.999999999999ap-3 in
  let curled := in_image 0x1.ccccccccccccdp-2 0x1.6666666666666p-1 in
  [wrist; pinkyMcp; pinkyMcp; thumbIp; thumbTip;
   pinkyMcp; pip; pinkyMcp; stretched;
   middleMcp; pip; pinkyMcp; stretched;
   pinkyMcp; pip; pinkyMcp; curled;
   pinkyMcp; pip; pinkyMcp; curled].

(** An oracle that always draws 0.5. *)
Definition sample_rng : Rng := {| draws := fun _ => 0.5; used := 0 |}.

(** A point of the normalised image space: every coordinate in [[0, 1]]. *)
Definition in_unit_cube (p : Vec3) : Prop :=
  0 <= vx p <= 1 /\ 0 <= vy p <= 1 /\ 0 <= vz p <= 1.

(** ** App.tsx *)

(** What the detector hands to [onResults]: the landmark sets of the hands it
    found, [undefined] or empty when it found none. *)
Record Results : Type := mkResults {
  multiHandLandmarks : option (list (list Gesture.Landmark))
}.

(** The state of the [App] component that [onResults] writes. *)
Record AppState : Type := mkAppState {
  metrics : option HandMetrics;
  loading : bool
}.

(** The callback given to [hands.onResults] (lines 61-70): the loader is
    hidden, and the metrics of the first hand, if there is one, replace the
    stored ones. *)
Definition onResults (results : Results) (app : AppState) : option AppState :=
  let app := {| metrics := metrics app; loading := false |} in
  match multiHandLandmarks results with
  | Some (landmarks :: _) =>
      computedMetrics ← Gesture.analyzeHand landmarks;
      Some {| metrics := Some computedMetrics; loading := loading app |}
  | _ => Some app
  end.

(** A detector result, through [App] and into the scene: the metrics effect
    of [HandParticleScene] runs when [setMetrics] has stored a new record. *)
Definition onDetection (table : ShapeType -> list R)
    (setHSL : R -> R -> R -> Color) (results : Results)
    (state : AppState * Scene) : option (AppState * Scene) :=
  app ← onResults results (fst state);
  match multiHandLandmarks results with
  | Some (_ :: _) =>
      st ← metricsEffect table setHSL (metrics app) (snd state);
      Some (app, st)
  | _ => Some (app, snd state)
  end.

(** The target buffer holds the cached point set of the current shape. *)
Definition target_cached (table : ShapeType -> list R) (st : Scene) : Prop :=
  targetPositions st = table (currentShape st).

(** Every coordinate of every cached point set is within [bound] of 0. *)
Definition table_bounded (bound : R) (table : ShapeType -> list R) : Prop :=
  forall shape j x, table shape !! j = Some x -> Rabs x <= bound.

(** A detector result with one hand, and one with none. *)
Definition sample_results : Results :=
  {| multiHandLandmarks := Some [sample_open_hand] |}.

Definition sample_no_hand : Results := {| multiHandLandmarks := None |}.

Definition sample_app : AppState := {| metrics := None; loading := true |}.

(** The scenes of a session in which [Math.random] keeps its promise: as
    [reachable], with every frame drawing from [[0, 1)]. *)
Inductive played (count : nat) (table : ShapeType -> list R)
    (setHSL : R -> R -> R -> Color) (color0 : Color) : Scene -> Prop :=
| played_mount st :
    mount table count color0 = Some st ->
    played count table setHSL color0 st
| played_update m st st' :
    played count table setHSL color0 st ->
    updateTargets table setHSL m st = Some st' ->
    played count table setHSL color0 st'
| played_frame st st' s s' :
    played count table setHSL color0 st ->
    unit_draws s ->
    animateWith count POS_LERP_FACTOR st s = Some (st', s') ->
    played count table setHSL color0 st'.

(** An open hand at palm depth 0.1. *)
Definition sample_far : HandMetrics :=
  {| fingerCount := 3; isFist := false;
     position := mkVec3 0.5 0.5 0; palmDepth := 0.1 |}.

(** *** The point sets as lists *)

(** The buffer [generate] fills, built front to back: the three coordinates
    of [fn i], then those of [fn (i + 1)], and so on for [n] points. *)
Fixpoint gen_points (n i : nat) (fn : nat -> M Vec3) : M (list R) :=
  match n with
  | O => mret []
  | S n' =>
      p ← fn i;
      rest ← gen_points n' (S i) fn;
      mret (vx p :: vy p :: vz p :: rest)
  end.

(** Point [i] of the TREE set, which has no random part. *)
Definition tree_vertex (count i : nat) : Vec3 :=
  let pct := INR i / INR count in
  {| vx := pct * 8 * cos (pct * PI * 20);
     vy := 8 - pct * 18;
     vz := pct * 8 * sin (pct * PI * 20) |}.

Definition tree_set (count : nat) : list R :=
  flat_map (fun i => [vx (tree_vertex count i); vy (tree_vertex count i);
                      vz (tree_vertex count i)]) (seq 0 count).

(** The bound of the coordinates of the five point sets (reached by the
    tips of the HEXAGRAM), and that of the particles of a session. *)
Definition SHAPE_BOUND : R := 13.5.
Definition PARTICLE_BOUND : R := 13.8125.

(** The square of the distance of a point to the z axis and to the y axis. *)
Definition radius2_xy (p : Vec3) : R := vx p ^ 2 + vy p ^ 2.
Definition radius2_xz (p : Vec3) : R := vx p ^ 2 + vz p ^ 2.

(** The one-particle scene with every coordinate 0.3125 below its target,
    and an oracle that always draws 0. *)
Definition sample_lagging : Scene :=
  {| targetPositions := [1; 1; 1]; currentShape := HEART;
     rotationSpeed := 0.002; groupScale := 1.0;
     currentColor := sample_color; targetColor := sample_color;
     positions := [0.6875; 0.6875; 0.6875]; materialColor := sample_color;
     rotation_z := 0; rotation_y := 0;
     scale := {| vx := 1; vy := 1; vz := 1 |} |}.

Definition sample_zero_rng : Rng := {| draws := fun _ => 0; used := 0 |}.

(** * Properties *)

(** ** Numbers *)

Lemma max_min_clamp (v lo hi : R) :
  lo <= hi -> Math_max lo (Math_min hi v) = clamp v lo hi.
Proof.
  intros Hle. unfold Math_max, Math_min, clamp, Rmax, Rmin.
  repeat destruct Rle_dec; repeat destruct Rlt_dec; lra.
Qed.

(** ** The feature extractor *)

Section AnalyzeHand.
Import Gesture.

Lemma squared_distance_nonneg (p1 p2 : Vec3) : 0 <= squared_distance p1 p2.
Proof.
  unfold squared_distance.
  pose proof (pow2_ge_0 (vx p1 - vx p2)). pose proof (pow2_ge_0 (vy p1 - vy p2)).
  pose proof (pow2_ge_0 (vz p1 - vz p2)). lra.
Qed.

(** Comparing two Euclidean distances is comparing their squares. *)
Lemma distance_gt (t j r : Vec3) :
  distance t r > distance j r <-> squared_distance t r > squared_distance j r.
Proof.
  change (distance t r) with (sqrt (squared_distance t r)).
  change (distance j r) with (sqrt (squared_distance j r)).
  pose proof (squared_distance_nonneg j r) as Hj.
  split; intros H.
  - apply sqrt_lt_0_alt. exact H.
  - apply sqrt_lt_1_alt. split; [exact Hj | exact H].
Qed.

(** *** Binary64 numbers *)

Lemma value_finite (f : float) (s : bool) (m : positive) (e : Z) :
  Prim2SF f = S754_finite s m e ->
  value f = (if s then - IZR (Zpos m) else IZR (Zpos m)) * powerRZ 2 e.
Proof. intros H. unfold value. now rewrite H. Qed.

Lemma value_zero (f : float) (s : bool) : Prim2SF f = S754_zero s -> value f = 0.
Proof. intros H. unfold value. now rewrite H. Qed.

(** Replaces [value c], for a binary64 constant [c], by the real number it
    stands for. *)
Ltac float_value c :=
  let v := eval vm_compute in (Prim2SF c) in
  lazymatch v with
  | S754_finite ?s ?m ?e =>
      rewrite (value_finite c s m e) by (vm_compute; reflexivity)
  | S754_zero ?s => rewrite (value_zero c s) by (vm_compute; reflexivity)
  end.

Ltac float_values :=
  repeat match goal with |- context [value ?c] => float_value c end;
  cbn [powerRZ];
  repeat match goal with
    | |- context [Pos.to_nat ?p] =>
        let n := eval vm_compute in (Pos.to_nat p) in
        change (Pos.to_nat p) with n
    end.

(** The operations of the machine are those of the standard: the distance
    the program computes is [ieee_distance], and its [>] is the order of the
    standard. *)
Lemma distance64_ieee (p1 p2 : Landmark) :
  Prim2SF (distance64 p1 p2) = ieee_distance p1 p2.
Proof.
  unfold distance64, Math_pow2, ieee_distance, ieee_square_difference.
  now rewrite FloatAxioms.sqrt_spec, !FloatAxioms.add_spec,
    !FloatAxioms.mul_spec, !FloatAxioms.sub_spec.
Qed.

Lemma gt64_ieee (t j r : Landmark) :
  gt64 (distance64 t r) (distance64 j r)
  = SFltb (ieee_distance j r) (ieee_distance t r).
Proof. unfold gt64. now rewrite FloatAxioms.ltb_spec, !distance64_ieee. Qed.

(** No number exceeds itself: a tie is not an extension. *)
Lemma gt64_irrefl (a : float) : gt64 a a = false.
Proof.
  unfold gt64. rewrite FloatAxioms.ltb_spec. unfold SFltb, SFcompare.
  destruct (Prim2SF a) as [s|s| |s m e]; try reflexivity;
    try (destruct s; reflexivity).
  destruct s; rewrite Z.compare_refl, Pos.compare_cont_refl; reflexivity.
Qed.

(** On a right triangle of sides 0.375 and 0.5 the computed distance is
    0.625, the Euclidean one; with the third coordinate at 2^-30 it still is
    0.625, which the Euclidean distance then exceeds. *)
Example distance64_right_triangle :
  distance64 (in_image 0.375 0.5) (in_image 0 0) = 0.625%float
  /\ value (distance64 (in_image 0.375 0.5) (in_image 0 0))
     = distance (point (in_image 0.375 0.5)) (point (in_image 0 0))
  /\ distance64 (mkLandmark 0.375 0.5 0x1p-30) (in_image 0 0) = 0.625%float
  /\ distance (point (mkLandmark 0.375 0.5 0x1p-30)) (point (in_image 0 0))
     > 0.625.
Proof.
  split; [vm_compute; reflexivity|]. split.
  { replace (distance64 (in_image 0.375 0.5) (in_image 0 0)) with 0.625%float
      by (vm_compute; reflexivity).
    unfold distance, point, in_image; cbn [vx vy vz x y z]. float_values.
    rewrite <- (sqrt_square (5629499534213120 * / 2 ^ 53)) at 1 by lra.
    f_equal. lra. }
  split; [vm_compute; reflexivity|].
  rewrite <- (sqrt_square 0.625) by lra.
  unfold distance. apply sqrt_lt_1_alt.
  unfold point, in_image; cbn [vx vy vz x y z]. float_values. lra.
Qed.

(** *** Lookups *)

Lemma landmark_present (landmarks : list Landmark) (i : nat) :
  length landmarks = 21%nat -> (i < 21)%nat ->
  exists p, landmarks !! i = Some p.
Proof.
  intros Hlen Hi. apply lookup_lt_is_Some_2. lia.
Qed.

(** On 21 landmarks every lookup of [extendedDigits] succeeds, and each flag
    is the comparison of the standard on the landmarks of its digit. *)
Lemma extendedDigits_total (landmarks : list Landmark) :
  length landmarks = 21%nat ->
  exists e, extendedDigits landmarks = Some e
    /\ forall d, classified e d = computed_extended landmarks d.
Proof.
  intros Hlen.
  destruct (landmark_present landmarks WRIST Hlen) as [p0 H0]; [unfold WRIST; lia|].
  destruct (landmark_present landmarks THUMB_IP Hlen) as [p3 H3]; [unfold THUMB_IP; lia|].
  destruct (landmark_present landmarks THUMB_TIP Hlen) as [p4 H4]; [unfold THUMB_TIP; lia|].
  destruct (landmark_present landmarks INDEX_FINGER_PIP Hlen) as [p6 H6]; [unfold INDEX_FINGER_PIP; lia|].
  destruct (landmark_present landmarks INDEX_FINGER_TIP Hlen) as [p8 H8]; [unfold INDEX_FINGER_TIP; lia|].
  destruct (landmark_present landmarks MIDDLE_FINGER_PIP Hlen) as [p10 H10]; [unfold MIDDLE_FINGER_PIP; lia|].
  destruct (landmark_present landmarks MIDDLE_FINGER_TIP Hlen) as [p12 H12]; [unfold MIDDLE_FINGER_TIP; lia|].
  destruct (landmark_present landmarks RING_FINGER_PIP Hlen) as [p14 H14]; [unfold RING_FINGER_PIP; lia|].
  destruct (landmark_present landmarks RING_FINGER_TIP Hlen) as [p16 H16]; [unfold RING_FINGER_TIP; lia|].
  destruct (landmark_present landmarks PINKY_MCP Hlen) as [p17 H17]; [unfold PINKY_MCP; lia|].
  destruct (landmark_present landmarks PINKY_PIP Hlen) as [p18 H18]; [unfold PINKY_PIP; lia|].
  destruct (landmark_present landmarks PINKY_TIP Hlen) as [p20 H20]; [unfold PINKY_TIP; lia|].
  unfold extendedDigits.
  rewrite H4, H17, H3, H0, H8, H6, H12, H10, H16, H14, H20, H18. simpl.
  eexists; split; [reflexivity|].
  unfold WRIST, THUMB_IP, THUMB_TIP, INDEX_FINGER_PIP, INDEX_FINGER_TIP,
    MIDDLE_FINGER_PIP, MIDDLE_FINGER_TIP, RING_FINGER_PIP, RING_FINGER_TIP,
    PINKY_MCP, PINKY_PIP, PINKY_TIP in *.
  intros d; unfold computed_extended; destruct d; cbn [classified tip joint reference
    isThumbExtended isIndexExtended isMiddleExtended isRingExtended isPinkyExtended].
  - rewrite H4, H3, H17. apply gt64_ieee.
  - rewrite H8, H6, H0. apply gt64_ieee.
  - rewrite H12, H10, H0. apply gt64_ieee.
  - rewrite H16, H14, H0. apply gt64_ieee.
  - rewrite H20, H18, H0. apply gt64_ieee.
Qed.

Lemma countFingers_filter (e : Extended) :
  countFingers e = Z.of_nat (length (List.filter (classified e) digits)).
Proof.
  destruct e as [[] [] [] [] []]; reflexivity.
Qed.

Lemma countFingers_range (e : Extended) : (0 <= countFingers e <= 5)%Z.
Proof.
  destruct e as [[] [] [] [] []]; cbv; split; discriminate.
Qed.

Lemma analyzeHand_total (landmarks : list Landmark) (e : Extended) :
  length landmarks = 21%nat ->
  extendedDigits landmarks = Some e ->
  exists m, analyzeHand landmarks = Some m
    /\ fingerCount m = countFingers e
    /\ isFist m =
         ((countFingers e =? 0)%Z
          || ((countFingers e =? 1)%Z
              && negb (isIndexExtended e) && negb (isMiddleExtended e)
              && negb (isRingExtended e) && negb (isPinkyExtended e))).
Proof.
  intros Hlen He.
  destruct (landmark_present landmarks WRIST Hlen) as [p0 H0]; [unfold WRIST; lia|].
  destruct (landmark_present landmarks MIDDLE_FINGER_MCP Hlen) as [p9 H9];
    [unfold MIDDLE_FINGER_MCP; lia|].
  unfold analyzeHand. rewrite He. simpl.
  change 9%nat with MIDDLE_FINGER_MCP. rewrite H9, H0. simpl.
  eexists; split; [reflexivity|]. simpl. split; reflexivity.
Qed.

(** Runs [analyzeHand] on an explicit hand of 21 landmarks: the flags are
    computed, the count and the fist flag follow. *)
Ltac run_analyzeHand hand :=
  let r := eval vm_compute in (extendedDigits hand) in
  lazymatch r with
  | Some ?e =>
      let He := fresh "He" in
      let m := fresh "m" in
      let Hm := fresh "Hm" in
      let Hfc := fresh "Hfc" in
      let Hfist := fresh "Hfist" in
      assert (He : extendedDigits hand = Some e) by (vm_compute; reflexivity);
      destruct (analyzeHand_total hand e eq_refl He) as (m & Hm & Hfc & Hfist);
      rewrite Hm; cbn [fmap option_fmap option_map]; rewrite ?Hfc, ?Hfist
  end.

(** The thumb-only hand is a fist with one digit counted; the open hand
    counts five digits and is no fist; off the grid, two stretched fingers
    are counted as two. *)
Example thumb_hand_is_fist :
  fingerCount <$> analyzeHand sample_thumb_hand = Some 1%Z
  /\ isFist <$> analyzeHand sample_thumb_hand = Some true.
Proof. run_analyzeHand sample_thumb_hand. split; reflexivity. Qed.

Example open_hand_counts_five :
  fingerCount <$> analyzeHand sample_open_hand = Some 5%Z
  /\ isFist <$> analyzeHand sample_open_hand = Some false.
Proof. run_analyzeHand sample_open_hand. split; reflexivity. Qed.

Example two_fingers_counted :
  fingerCount <$> analyzeHand sample_two_fingers = Some 2%Z
  /\ isFist <$> analyzeHand sample_two_fingers = Some false
  /\ List.filter (computed_extended sample_two_fingers) digits = [Index; Middle].
Proof.
  run_analyzeHand sample_two_fingers.
  split; [reflexivity|]. split; [reflexivity|]. vm_compute. reflexivity.
Qed.

(** Fewer than 21 landmarks: a lookup fails. *)
Example short_hand_fails : analyzeHand (on_axis <$> [0; 1; 2]%float) = None.
Proof. reflexivity. Qed.

(** On the thumb-only hand the computed comparisons are the Euclidean ones:
    the thumb is extended and no finger is. *)
Example thumb_only_euclidean :
  digit_extended sample_thumb_only Thumb
  /\ (forall d, d <> Thumb -> ~ digit_extended sample_thumb_only d)
  /\ List.filter (computed_extended sample_thumb_only) digits = [Thumb].
Proof.
  split; [|split]; [| |vm_compute; reflexivity].
  - eexists _, _, _.
    (split; [reflexivity|]); (split; [reflexivity|]); (split; [reflexivity|]).
    apply distance_gt; unfold squared_distance, point, in_image;
      cbn [vx vy vz x y z]; float_values; lra.
  - intros d Hd (t & j & r & Ht & Hj & Hr & Hgt).
    destruct d; [contradiction| | | |];
      injection Ht as <-; injection Hj as <-; injection Hr as <-;
      revert Hgt; rewrite distance_gt; unfold squared_distance, point, in_image;
      cbn [vx vy vz x y z]; float_values; lra.
Qed.

(** Each digit of the near-tie hand is extended in Euclidean distance. *)
Lemma near_tie_extended (d : Digit) : digit_extended sample_near_tie d.
Proof.
  unfold digit_extended.
  destruct d; eexists _, _, _;
    (split; [reflexivity|]); (split; [reflexivity|]); (split; [reflexivity|]);
    apply distance_gt; unfold squared_distance, point, in_image;
    cbn [vx vy vz x y z]; float_values; lra.
Qed.

Lemma near_tie_in_image :
  Forall (fun l => in_unit_cube (point l)) sample_near_tie.
Proof.
  unfold sample_near_tie, sample_hand.
  repeat (constructor;
          [unfold in_unit_cube, point, in_image; cbn [vx vy vz x y z];
           float_values; lra|]).
  constructor.
Qed.

(** C3, counterexample.  The landmarks of the near-tie hand all lie in the
    normalised image space, and every digit of it is extended in the sense
    of the claim: each tip is farther from the reference point than the
    joint, in Euclidean distance.  But for each of the four fingers the
    program computes the same distance, 0.25, for the tip and for the PIP
    joint: it classifies none of them as extended and returns [fingerCount]
    1 and a fist, where the claim asks for 5 digits. *)
Lemma near_tie_undercounted :
  length sample_near_tie = 21%nat
  /\ Forall (fun l => in_unit_cube (point l)) sample_near_tie
  /\ (forall d, digit_extended sample_near_tie d)
  /\ extendedDigits sample_near_tie
     = Some {| isThumbExtended := true; isIndexExtended := false;
               isMiddleExtended := false; isRingExtended := false;
               isPinkyExtended := false |}
  /\ fingerCount <$> analyzeHand sample_near_tie = Some 1%Z
  /\ isFist <$> analyzeHand sample_near_tie = Some true.
Proof.
  split; [reflexivity|]. split; [apply near_tie_in_image|].
  split; [apply near_tie_extended|].
  split; [vm_compute; reflexivity|].
  run_analyzeHand sample_near_tie. split; reflexivity.
Qed.

(** C3, as amended.  On every 21-point landmark set [analyzeHand] returns; a
    digit is classified as extended exactly when its tip is farther than its
    joint from the reference point (the wrist, landmark 0, with the PIP joint
    for the four fingers; the pinky MCP, landmark 17, with the IP joint for
    the thumb) in the distances computed in binary64; and [fingerCount] is
    the number of digits so classified, an integer between 0 and 5. *)
Theorem analyzeHand_counts_computed (landmarks : list Landmark) :
  length landmarks = 21%nat ->
  exists e m,
    extendedDigits landmarks = Some e
    /\ analyzeHand landmarks = Some m
    /\ (forall d, classified e d = computed_extended landmarks d)
    /\ fingerCount m
       = Z.of_nat (length (List.filter (computed_extended landmarks) digits))
    /\ (0 <= fingerCount m <= 5)%Z.
Proof.
  intros Hlen.
  destruct (extendedDigits_total landmarks Hlen) as (e & He & Hcls).
  destruct (analyzeHand_total landmarks e Hlen He) as (m & Hm & Hfc & _).
  exists e, m. split; [assumption|]. split; [assumption|].
  split; [assumption|]. rewrite Hfc. split.
  - rewrite countFingers_filter. do 2 f_equal. now apply List.filter_ext.
  - apply countFingers_range.
Qed.

Lemma analyzeHand_counts_computed_witness :
  exists e m,
    extendedDigits sample_two_fingers = Some e
    /\ analyzeHand sample_two_fingers = Some m
    /\ (forall d, classified e d = computed_extended sample_two_fingers d)
    /\ fingerCount m
       = Z.of_nat
           (length (List.filter (computed_extended sample_two_fingers) digits))
    /\ (0 <= fingerCount m <= 5)%Z.
Proof.
  apply (analyzeHand_counts_computed sample_two_fingers). reflexivity.
Defined.



End AnalyzeHand.

(** ** The gesture-to-state mapper *)

Lemma typed_set_same_length (dst src : list R) :
  length src = length dst -> typed_set dst src = Some src.
Proof.
  intros Hlen. unfold typed_set.
  destruct (decide (length src <= length dst)%nat) as [_|Hn]; [|lia].
  rewrite drop_ge by lia. now rewrite app_nil_r.
Qed.

Lemma sample_table_sized : table_sized 1 sample_table.
Proof. intros []; reflexivity. Qed.

Lemma sample_scene_sized : scene_sized 1 sample_scene.
Proof. split; reflexivity. Qed.

Lemma mount_sized (count : nat) (table : ShapeType -> list R) (color0 : Color) :
  table_sized count table ->
  exists st, mount table count color0 = Some st
    /\ scene_sized count st
    /\ targetPositions st = table HEART /\ positions st = table HEART
    /\ currentShape st = HEART
    /\ rotationSpeed st = 0.001 /\ groupScale st = 1.0.
Proof.
  intros Htab. unfold mount.
  rewrite typed_set_same_length
    by (rewrite Htab; unfold new_Float32Array; now rewrite length_replicate).
  simpl. eexists; split; [reflexivity|]. simpl.
  unfold scene_sized; simpl. rewrite Htab. repeat split; reflexivity.
Qed.

(** Unfolds one run of the effect in a sized scene, by cases on the fist flag
    and on whether the shape changes. *)
Ltac run_update Htab Hst :=
  unfold updateTargets;
  destruct (isFist _) eqn:Hfist; simpl;
  [| destruct (decide (selectShape _ _ <> _)) as [Hne|Heq]; simpl;
     [rewrite typed_set_same_length
        by (rewrite Htab; symmetry; apply Hst); simpl |] ].

Lemma updateTargets_sized (count : nat) (table : ShapeType -> list R)
    (setHSL : R -> R -> R -> Color) (m : HandMetrics) (st : Scene) :
  table_sized count table -> scene_sized count st ->
  exists st', updateTargets table setHSL m st = Some st'
    /\ scene_sized count st'
    /\ positions st' = positions st.
Proof.
  intros Htab Hst. run_update Htab Hst.
  all: eexists; split; [reflexivity|]; split; [|reflexivity].
  all: unfold scene_sized; simpl; try rewrite Htab; try apply Hst.
  split; [reflexivity | apply Hst].
Qed.

(** A metrics update keeps the scene sized and leaves one of the two
    rotation speeds. *)
Lemma physics_speed (count : nat) (table : ShapeType -> list R)
    (setHSL : R -> R -> R -> Color) (m : HandMetrics) (st : Scene) :
  table_sized count table -> scene_sized count st ->
  exists st', updateTargets table setHSL m st = Some st'
    /\ scene_sized count st'
    /\ (rotationSpeed st' = 0.15 \/ rotationSpeed st' = 0.002).
Proof.
  intros Htab Hst. run_update Htab Hst.
  all: eexists; split; [reflexivity|]; split; [|auto].
  all: unfold scene_sized; simpl; try rewrite Htab; try apply Hst.
  split; [reflexivity | apply Hst].
Qed.

Lemma selectShape_order (current : ShapeType) (k : nat) (shape : ShapeType) :
  shape_order !! k = Some shape ->
  selectShape current (Z.of_nat (S k)) = shape.
Proof.
  do 5 (destruct k as [|k]; [simpl; intros [= <-]; reflexivity|]).
  discriminate.
Qed.

Lemma selectShape_out_of_range (current : ShapeType) (n : Z) :
  ~ (1 <= n <= 5)%Z -> selectShape current n = current.
Proof.
  intros Hn. unfold selectShape.
  repeat match goal with
    | |- context [(n =? ?c)%Z] => destruct (Z.eqb_spec n c); [lia|]
    end.
  reflexivity.
Qed.

(** C1.  A metrics update on an open hand ([isFist] false) with
    [fingerCount] k in 1..5 selects the k-th of HEART, FLOWER, PORTAL,
    HEXAGRAM, TREE; when that shape is not the current one, the target
    buffer becomes the cached point set of the shape, and the current shape
    is updated.  With a fist, or with a [fingerCount] outside 1..5, the
    current shape and the target buffer stay as they are. *)
Theorem updateTargets_shape (count : nat) (table : ShapeType -> list R)
    (setHSL : R -> R -> R -> Color) (m : HandMetrics) (st : Scene) :
  table_sized count table -> scene_sized count st ->
  exists st', updateTargets table setHSL m st = Some st'
    /\ (isFist m = false ->
        forall (k : nat) (shape : ShapeType),
          shape_order !! k = Some shape ->
          fingerCount m = Z.of_nat (S k) ->
          currentShape st' = shape
          /\ (shape <> currentShape st -> targetPositions st' = table shape)
          /\ (shape = currentShape st ->
              targetPositions st' = targetPositions st))
    /\ (isFist m = true \/ ~ (1 <= fingerCount m <= 5)%Z ->
        currentShape st' = currentShape st
        /\ targetPositions st' = targetPositions st).
Proof.
  intros Htab Hst. run_update Htab Hst.
  - eexists; split; [reflexivity|]. simpl. split; [discriminate|].
    intros _; split; reflexivity.
  - eexists; split; [reflexivity|]. simpl. split.
    + intros _ k shape Hk Hfc. rewrite Hfc in *.
      rewrite (selectShape_order _ k shape Hk) in *.
      split; [reflexivity|]. split; [reflexivity|]. intros ->; contradiction.
    + intros [Habs|Hout]; [discriminate|].
      rewrite selectShape_out_of_range in Hne by assumption. contradiction.
  - eexists; split; [reflexivity|]. simpl.
    assert (Hsame : selectShape (currentShape st) (fingerCount m) = currentShape st).
    { destruct (decide (selectShape (currentShape st) (fingerCount m)
                        = currentShape st)); [assumption | contradiction]. }
    split.
    + intros _ k shape Hk Hfc. rewrite Hfc in Hsame.
      rewrite (selectShape_order _ k shape Hk) in Hsame.
      split; [now symmetry|]. split; [intros Hd; contradiction | reflexivity].
    + intros _; split; reflexivity.
Qed.

Lemma updateTargets_shape_witness :
  exists st', updateTargets sample_table sample_setHSL sample_open sample_scene = Some st'
    /\ (isFist sample_open = false ->
        forall (k : nat) (shape : ShapeType),
          shape_order !! k = Some shape ->
          fingerCount sample_open = Z.of_nat (S k) ->
          currentShape st' = shape
          /\ (shape <> currentShape sample_scene ->
              targetPositions st' = sample_table shape)
          /\ (shape = currentShape sample_scene ->
              targetPositions st' = targetPositions sample_scene))
    /\ (isFist sample_open = true \/ ~ (1 <= fingerCount sample_open <= 5)%Z ->
        currentShape st' = currentShape sample_scene
        /\ targetPositions st' = targetPositions sample_scene).
Proof.
  apply (updateTargets_shape 1 sample_table sample_setHSL sample_open sample_scene).
  - intros []; reflexivity.
  - split; reflexivity.
Defined.

(** The update of the sample scene by the sample open hand, run. *)
Example sample_open_selects_flower :
  (currentShape <$> updateTargets sample_table sample_setHSL sample_open sample_scene)
    = Some FLOWER
  /\ (targetPositions <$> updateTargets sample_table sample_setHSL sample_open sample_scene)
    = Some [2; 2; 2].
Proof. split; reflexivity. Qed.

Example sample_fist_keeps_heart :
  (currentShape <$> updateTargets sample_table sample_setHSL sample_fist sample_scene)
    = Some HEART
  /\ (targetPositions <$> updateTargets sample_table sample_setHSL sample_fist sample_scene)
    = Some [1; 1; 1].
Proof. split; reflexivity. Qed.

Lemma depth_clamp_bounds (d : R) : 0.05 <= clamp d 0.05 0.5 <= 0.5.
Proof. unfold clamp. repeat destruct Rlt_dec; lra. Qed.

(** C4.  A metrics update with a fist sets the target scale to 0.4 and the
    rotation speed to 0.15; with an open hand it sets the target scale to
    1.0 + (1 - 2 * clamp(palmDepth, 0.05, 0.5)) and the rotation speed to
    0.002.  Palm depth 0.05 gives scale 1.9 and palm depth 0.5 gives scale
    1.0, and so do the palm depths below 0.05 and above 0.5. *)
Theorem updateTargets_physics (count : nat) (table : ShapeType -> list R)
    (setHSL : R -> R -> R -> Color) (m : HandMetrics) (st : Scene) :
  table_sized count table -> scene_sized count st ->
  exists st', updateTargets table setHSL m st = Some st'
    /\ (isFist m = true ->
        groupScale st' = 0.4 /\ rotationSpeed st' = 0.15)
    /\ (isFist m = false ->
        groupScale st' = 1.0 + (1 - 2 * clamp (palmDepth m) 0.05 0.5)
        /\ rotationSpeed st' = 0.002
        /\ (palmDepth m = 0.05 -> groupScale st' = 1.9)
        /\ (palmDepth m = 0.5 -> groupScale st' = 1.0)
        /\ (palmDepth m < 0.05 -> groupScale st' = 1.9)
        /\ (0.5 < palmDepth m -> groupScale st' = 1.0)).
Proof.
  intros Htab Hst. run_update Htab Hst.
  all: eexists; split; [reflexivity|]; simpl.
  all: split; [intros; try discriminate; split; reflexivity|].
  all: intros; try discriminate.
  all: rewrite max_min_clamp by lra.
  all: unfold clamp; repeat destruct Rlt_dec; repeat split; intros; lra.
Qed.

Lemma updateTargets_physics_witness :
  exists st', updateTargets sample_table sample_setHSL sample_open sample_scene = Some st'
    /\ (isFist sample_open = true ->
        groupScale st' = 0.4 /\ rotationSpeed st' = 0.15)
    /\ (isFist sample_open = false ->
        groupScale st' = 1.0 + (1 - 2 * clamp (palmDepth sample_open) 0.05 0.5)
        /\ rotationSpeed st' = 0.002
        /\ (palmDepth sample_open = 0.05 -> groupScale st' = 1.9)
        /\ (palmDepth sample_open = 0.5 -> groupScale st' = 1.0)
        /\ (palmDepth sample_open < 0.05 -> groupScale st' = 1.9)
        /\ (0.5 < palmDepth sample_open -> groupScale st' = 1.0)).
Proof.
  apply (updateTargets_physics 1 sample_table sample_setHSL sample_open sample_scene).
  - intros []; reflexivity.
  - split; reflexivity.
Defined.

(** C5.  A metrics update with a fist sets the target colour to the HSL
    colour of hue clamp(1 - position.x, 0, 1), saturation 1.0 and lightness
    0.5: hue 1 at x = 0, hue 0 at x = 1, hue 0.5 at x = 0.5. *)
Theorem updateTargets_fist_color (count : nat) (table : ShapeType -> list R)
    (setHSL : R -> R -> R -> Color) (m : HandMetrics) (st : Scene) :
  table_sized count table -> scene_sized count st ->
  isFist m = true ->
  exists st', updateTargets table setHSL m st = Some st'
    /\ targetColor st' = setHSL (clamp (1 - vx (position m)) 0 1) 1.0 0.5
    /\ (vx (position m) = 0 -> targetColor st' = setHSL 1 1.0 0.5)
    /\ (vx (position m) = 1 -> targetColor st' = setHSL 0 1.0 0.5)
    /\ (vx (position m) = 0.5 -> targetColor st' = setHSL 0.5 1.0 0.5).
Proof.
  intros Htab Hst Hm. unfold updateTargets. rewrite Hm. simpl.
  eexists; split; [reflexivity|]. simpl.
  rewrite max_min_clamp by lra.
  split; [reflexivity|].
  repeat split; intros Hx; f_equal; rewrite Hx; unfold clamp;
    repeat destruct Rlt_dec; lra.
Qed.

Lemma updateTargets_fist_color_witness :
  exists st', updateTargets sample_table sample_setHSL sample_fist sample_scene = Some st'
    /\ targetColor st'
       = sample_setHSL (clamp (1 - vx (position sample_fist)) 0 1) 1.0 0.5
    /\ (vx (position sample_fist) = 0 -> targetColor st' = sample_setHSL 1 1.0 0.5)
    /\ (vx (position sample_fist) = 1 -> targetColor st' = sample_setHSL 0 1.0 0.5)
    /\ (vx (position sample_fist) = 0.5 ->
        targetColor st' = sample_setHSL 0.5 1.0 0.5).
Proof.
  apply (updateTargets_fist_color 1 sample_table sample_setHSL sample_fist sample_scene).
  - intros []; reflexivity.
  - split; reflexivity.
  - reflexivity.
Defined.

(** An open hand leaves the target colour alone. *)
Lemma updateTargets_open_color (table : ShapeType -> list R)
    (setHSL : R -> R -> R -> Color) (m : HandMetrics) (st st' : Scene) :
  isFist m = false ->
  updateTargets table setHSL m st = Some st' ->
  targetColor st' = targetColor st.
Proof.
  intros Hm. unfold updateTargets. rewrite Hm. simpl.
  destruct (decide _); simpl.
  - destruct (typed_set _ _); simpl; [|discriminate]. now intros [= <-].
  - now intros [= <-].
Qed.

(** While [handMetrics] is [null] the effect does nothing. *)
Lemma metricsEffect_null (table : ShapeType -> list R)
    (setHSL : R -> R -> R -> Color) (st : Scene) :
  metricsEffect table setHSL None st = Some st.
Proof. reflexivity. Qed.

(** The sample scene is the scene mounted on the sample table. *)
Lemma sample_scene_mounted :
  mount sample_table 1 sample_color = Some sample_scene.
Proof. reflexivity. Qed.

(** C10, as stated, fails on the target scale: the mounted scene has target
    scale 1.0, and so has the scene after the update by an open hand at palm
    depth 0.5. *)
Lemma initial_scale_reproduced :
  mount sample_table 1 sample_color = Some sample_scene
  /\ groupScale sample_scene = 1.0
  /\ exists st',
       updateTargets sample_table sample_setHSL sample_open sample_scene = Some st'
       /\ groupScale st' = 1.0.
Proof.
  split; [reflexivity|]. split; [reflexivity|].
  eexists; split; [reflexivity|]. simpl.
  unfold Math_max, Math_min, Rmax, Rmin. repeat destruct Rle_dec; lra.
Qed.

(** C10, amended.  The mounted scene has rotation speed 0.001 and target
    scale 1.0.  After every metrics update the rotation speed is 0.15 or
    0.002, so never 0.001 again, and the target scale is 0.4 or lies in
    [1.0, 1.9]. *)
Theorem physics_invariant (count : nat) (table : ShapeType -> list R)
    (setHSL : R -> R -> R -> Color) (color0 : Color) (m : HandMetrics)
    (st : Scene) :
  table_sized count table -> scene_sized count st ->
  (exists st0, mount table count color0 = Some st0
     /\ rotationSpeed st0 = 0.001 /\ groupScale st0 = 1.0)
  /\ exists st', updateTargets table setHSL m st = Some st'
       /\ (rotationSpeed st' = 0.15 \/ rotationSpeed st' = 0.002)
       /\ rotationSpeed st' <> 0.001
       /\ (groupScale st' = 0.4 \/ 1.0 <= groupScale st' <= 1.9).
Proof.
  intros Htab Hst. split.
  - destruct (mount_sized count table color0 Htab)
      as (st0 & Hm & _ & _ & _ & _ & Hr & Hg).
    exists st0. auto.
  - run_update Htab Hst.
    all: eexists; split; [reflexivity|]; simpl.
    all: try rewrite max_min_clamp by lra.
    all: try pose proof (depth_clamp_bounds (palmDepth m)) as Hb.
    all: split; [auto|]. all: split; [lra|].
    all: try (left; lra); right; lra.
Qed.

Lemma physics_invariant_witness :
  (exists st0, mount sample_table 1 sample_color = Some st0
     /\ rotationSpeed st0 = 0.001 /\ groupScale st0 = 1.0)
  /\ exists st',
       updateTargets sample_table sample_setHSL sample_fist sample_scene = Some st'
       /\ (rotationSpeed st' = 0.15 \/ rotationSpeed st' = 0.002)
       /\ rotationSpeed st' <> 0.001
       /\ (groupScale st' = 0.4 \/ 1.0 <= groupScale st' <= 1.9).
Proof.
  apply (physics_invariant 1 sample_table sample_setHSL sample_color
           sample_fist sample_scene).
  - intros []; reflexivity.
  - split; reflexivity.
Defined.

(** ** Running computations *)

Lemma bind_run {A B : Type} (m : M A) (f : A -> M B) (s s' : Rng) (a : A) :
  m s = Some (a, s') -> (m ≫= f) s = f a s'.
Proof. intros H. unfold mbind, M_bind. now rewrite H. Qed.

Lemma load_run (arr : list R) (i : nat) (v : R) (s : Rng) :
  arr !! i = Some v -> load arr i s = Some (v, s).
Proof. intros H. unfold load, lift. now rewrite H. Qed.

Lemma store_run (arr : list R) (i : nat) (v : R) (s : Rng) :
  (i < length arr)%nat -> store i v arr s = Some (<[i := v]> arr, s).
Proof.
  intros H. unfold store. destruct (decide (i < length arr)%nat); [reflexivity|lia].
Qed.

(** A loop invariant [I i acc s] that every iteration re-establishes holds
    when the loop ends, and the loop ends without failure. *)
Lemma for_loop_invariant {A : Type} (I : nat -> A -> Rng -> Prop)
    (body : nat -> A -> M A) (n i : nat) (acc : A) (s : Rng) :
  I i acc s ->
  (forall k a t, (i <= k < i + n)%nat -> I k a t ->
     exists a' t', body k a t = Some (a', t') /\ I (S k) a' t') ->
  exists acc' s',
    for_loop n i body acc s = Some (acc', s') /\ I (i + n)%nat acc' s'.
Proof.
  revert i acc s. induction n as [|n IH]; intros i acc s Hinit Hstep.
  - exists acc, s. split; [reflexivity|]. now rewrite Nat.add_0_r.
  - destruct (Hstep i acc s) as (a' & t' & Hbody & Hnext); [lia|assumption|].
    destruct (IH (S i) a' t' Hnext) as (acc' & s' & Hrun & Hend).
    { intros k a t Hk. apply Hstep. lia. }
    exists acc', s'. split.
    + simpl. rewrite (bind_run _ _ _ _ _ Hbody). exact Hrun.
    + now replace (i + S n)%nat with (S i + n)%nat by lia.
Qed.

(** ** The shape generator *)

Lemma point_at_insert_other (arr : list R) (j i : nat) (v : R) :
  (j < i * 3 \/ i * 3 + 3 <= j)%nat ->
  point_at (<[j := v]> arr) i = point_at arr i.
Proof.
  intros Hj. unfold point_at.
  now rewrite !list_lookup_insert_ne by lia.
Qed.

Lemma point_at_stored (arr : list R) (k : nat) (a b c : R) :
  (k * 3 + 2 < length arr)%nat ->
  point_at (<[(k * 3 + 2)%nat := c]>
              (<[(k * 3 + 1)%nat := b]> (<[(k * 3)%nat := a]> arr))) k
  = Some (mkVec3 a b c).
Proof.
  intros Hk.
  set (arr1 := <[(k * 3)%nat := a]> arr).
  set (arr2 := <[(k * 3 + 1)%nat := b]> arr1).
  assert (Hl1 : length arr1 = length arr) by apply length_insert.
  assert (Hl2 : length arr2 = length arr)
    by (unfold arr2; now rewrite length_insert).
  assert (Hx : <[(k * 3 + 2)%nat := c]> arr2 !! (k * 3)%nat = Some a).
  { rewrite list_lookup_insert_ne by lia. unfold arr2.
    rewrite list_lookup_insert_ne by lia. apply list_lookup_insert_eq. lia. }
  assert (Hy : <[(k * 3 + 2)%nat := c]> arr2 !! (k * 3 + 1)%nat = Some b).
  { rewrite list_lookup_insert_ne by lia. apply list_lookup_insert_eq. lia. }
  assert (Hz : <[(k * 3 + 2)%nat := c]> arr2 !! (k * 3 + 2)%nat = Some c).
  { apply list_lookup_insert_eq. lia. }
  unfold point_at. rewrite Hx, Hy, Hz. reflexivity.
Qed.

Lemma generate_points (count : nat) (fn : nat -> M Vec3)
    (P : nat -> Vec3 -> Prop) (s : Rng) :
  generates count fn P -> unit_draws s ->
  exists arr s',
    generate count fn s = Some (arr, s')
    /\ draws s' = draws s
    /\ length arr = (count * 3)%nat
    /\ forall i, (i < count)%nat ->
         exists p, point_at arr i = Some p /\ P i p.
Proof.
  intros Hfn Hs. unfold generate.
  destruct (for_loop_invariant
    (fun k arr t =>
       draws t = draws s /\ length arr = (count * 3)%nat
       /\ forall i, (i < k)%nat -> exists p, point_at arr i = Some p /\ P i p)
    (fun i arr =>
       p ← fn i;
       arr ← store (i * 3) (vx p) arr;
       arr ← store (i * 3 + 1) (vy p) arr;
       store (i * 3 + 2) (vz p) arr)
    count 0%nat (new_Float32Array (count * 3)) s)
    as (arr & s' & Hrun & Hdraws & Hlen & Hpts).
  - split; [reflexivity|]. split.
    + unfold new_Float32Array. apply length_replicate.
    + intros i Hi. lia.
  - intros k a t Hk (Hdraws & Hlen & Hpts).
    destruct (Hfn k t) as (p & t' & Hp & HP & Hdraws'); [lia| |].
    { intros j. rewrite Hdraws. apply Hs. }
    rewrite (bind_run _ _ _ _ _ Hp).
    do 2 (erewrite (bind_run (store _ _ _))
            by (apply store_run; rewrite ?length_insert; lia)).
    rewrite store_run by (rewrite !length_insert; lia).
    eexists _, _. split; [reflexivity|]. split; [congruence|]. split.
    + now rewrite !length_insert.
    + intros i Hi. destruct (decide (i = k)) as [->|Hne].
      * exists p. split; [|assumption].
        rewrite point_at_stored by lia. now destruct p.
      * destruct (Hpts i) as (q & Hq & HQ); [lia|].
        exists q. split; [|assumption].
        rewrite !point_at_insert_other by lia. assumption.
  - exists arr, s'. auto.
Qed.

Lemma pct_range (i count : nat) :
  (i < count)%nat -> 0 <= INR i / INR count < 1.
Proof.
  intros Hi.
  assert (Hc : 0 < INR count) by (apply lt_0_INR; lia).
  assert (H0 : 0 <= INR i) by apply pos_INR.
  assert (H1 : INR i < INR count) by now apply lt_INR.
  split.
  - apply Rmult_le_pos; [assumption|]. left. now apply Rinv_0_lt_compat.
  - apply (Rmult_lt_reg_r (INR count)); [assumption|].
    unfold Rdiv. rewrite Rmult_assoc, Rinv_l by lra. lra.
Qed.

(** Runs a generator function: every [Math.random] becomes the next draw. *)
Ltac run_generator :=
  unfold Math_random, mbind, M_bind, mret, M_ret; simpl;
  eexists _, _; split; [reflexivity|]; split; [|reflexivity].

Lemma heart_generates (count : nat) :
  generates count (heart count) (heart_point count).
Proof.
  intros i s Hi Hs. unfold heart. run_generator.
  pose proof (Hs (used s)) as H0. pose proof (Hs (S (used s))) as H1.
  unfold heart_point; simpl.
  exists (0.5 + draws s (used s) * 0.1).
  replace (INR i / INR count * (2 * PI)) with (INR i / INR count * PI * 2)
    by ring.
  repeat split; lra.
Qed.

Lemma flower_generates (count : nat) :
  generates count (flower count) (flower_point count).
Proof.
  intros i s Hi Hs. unfold flower. run_generator.
  pose proof (Hs (used s)) as H0.
  unfold flower_point; simpl.
  replace (INR i / INR count * (2 * PI) * 12)
    with (INR i / INR count * PI * 2 * 12) by ring.
  repeat split; lra.
Qed.

Lemma portal_generates (count : nat) :
  generates count portal portal_point.
Proof.
  intros i s Hi Hs. unfold portal.
  pose proof (Hs (used s)) as H0. pose proof (Hs (S (used s))) as H1.
  pose proof (Hs (S (S (used s)))) as H2.
  pose proof (Hs (S (S (S (used s))))) as H3.
  pose proof PI_RGT_0 as Hpi.
  assert (Hangle : 0 <= draws s (used s) * PI * 2 < 2 * PI) by nra.
  pose proof (Nat.mod_upper_bound i 3 ltac:(lia)) as Hmod.
  unfold portal_point.
  destruct (i mod 3)%nat as [|[|[|n]]]; [| | |lia].
  all: run_generator.
  - exists (10 + draws s (S (used s)) * 1.5), (draws s (used s) * PI * 2),
      ((draws s (S (S (used s))) - 0.5) * 0.5).
    simpl. repeat split; lra.
  - exists (8 + draws s (S (used s)) * 1.0), (draws s (used s) * PI * 2),
      ((draws s (S (S (used s))) - 0.5) * 0.5).
    simpl. repeat split; lra.
  - exists (draws s (S (used s)) * 9), (draws s (used s) * PI * 2),
      ((draws s (S (S (used s))) - 0.5) * 0.5).
    simpl. repeat split; lra.
Qed.

Lemma hexagram_generates (count : nat) :
  generates count (hexagram count) (hexagram_point count).
Proof.
  intros i s Hi Hs. unfold hexagram. run_generator.
  pose proof (Hs (used s)) as H0.
  unfold hexagram_point; simpl.
  replace (INR i / INR count * (2 * PI)) with (INR i / INR count * PI * 2)
    by ring.
  repeat split; lra.
Qed.

Lemma tree_generates (count : nat) :
  generates count (tree count) (tree_point count).
Proof.
  intros i s Hi Hs. unfold tree. run_generator.
  pose proof (pct_range i count Hi) as Hpct.
  unfold tree_point; simpl.
  replace (INR i / INR count * (2 * PI) * 10)
    with (INR i / INR count * PI * 20) by ring.
  repeat split; lra.
Qed.

Lemma shape_generates (count : nat) (shape : ShapeType) :
  generates count (shape_fn count shape) (shape_point count shape).
Proof.
  destruct shape; simpl.
  - apply heart_generates.
  - apply flower_generates.
  - apply portal_generates.
  - apply hexagram_generates.
  - apply tree_generates.
Qed.

Lemma unit_draws_same (s s' : Rng) :
  draws s' = draws s -> unit_draws s -> unit_draws s'.
Proof. intros H Hs k. rewrite H. apply Hs. Qed.

(** The memoised table, at any particle count. *)
Lemma shapes_table (count : nat) (s : Rng) :
  unit_draws s ->
  exists table s',
    shapes count s = Some (table, s')
    /\ draws s' = draws s
    /\ forall shape,
         length (table shape) = (count * 3)%nat
         /\ forall i, (i < count)%nat ->
              exists p, point_at (table shape) i = Some p
                        /\ shape_point count shape i p.
Proof.
  intros Hs. unfold shapes.
  destruct (generate_points count _ _ s (shape_generates count HEART) Hs)
    as (h & s1 & Hh & Hd1 & Hlh & Hph).
  pose proof (unit_draws_same _ _ Hd1 Hs) as Hs1.
  destruct (generate_points count _ _ s1 (shape_generates count FLOWER) Hs1)
    as (f & s2 & Hf & Hd2 & Hlf & Hpf).
  pose proof (unit_draws_same _ _ Hd2 Hs1) as Hs2.
  destruct (generate_points count _ _ s2 (shape_generates count PORTAL) Hs2)
    as (p & s3 & Hp & Hd3 & Hlp & Hpp).
  pose proof (unit_draws_same _ _ Hd3 Hs2) as Hs3.
  destruct (generate_points count _ _ s3 (shape_generates count HEXAGRAM) Hs3)
    as (x & s4 & Hx & Hd4 & Hlx & Hpx).
  pose proof (unit_draws_same _ _ Hd4 Hs3) as Hs4.
  destruct (generate_points count _ _ s4 (shape_generates count TREE) Hs4)
    as (t & s5 & Ht & Hd5 & Hlt & Hpt).
  rewrite (bind_run _ _ _ _ _ Hh), (bind_run _ _ _ _ _ Hf),
    (bind_run _ _ _ _ _ Hp), (bind_run _ _ _ _ _ Hx), (bind_run _ _ _ _ _ Ht).
  eexists _, _. split; [reflexivity|]. split; [congruence|].
  intros []; split; assumption.
Qed.

(** C6.  The five cached point sets hold [PARTICLE_COUNT] = 4000 points
    each, and every point has the documented form: for HEART,
    x = 16 sin^3(t) r and y = (13 cos t - 5 cos 2t - 2 cos 3t - cos 4t) r
    with r in [0.5, 0.6) and z in [-2, 2), where t = (i/N) 2 pi; likewise
    for FLOWER, PORTAL, HEXAGRAM and TREE.  Generating the set of a shape
    again, from any state of the random source, gives the same count and the
    same form. *)
Theorem shapes_documented (s : Rng) :
  unit_draws s ->
  PARTICLE_COUNT = 4000%nat
  /\ (exists table s',
        shapes PARTICLE_COUNT s = Some (table, s')
        /\ forall shape,
             length (table shape) = (PARTICLE_COUNT * 3)%nat
             /\ forall i, (i < PARTICLE_COUNT)%nat ->
                  exists p, point_at (table shape) i = Some p
                            /\ shape_point PARTICLE_COUNT shape i p)
  /\ forall shape, exists arr s',
       generate PARTICLE_COUNT (shape_fn PARTICLE_COUNT shape) s = Some (arr, s')
       /\ length arr = (PARTICLE_COUNT * 3)%nat
       /\ forall i, (i < PARTICLE_COUNT)%nat ->
            exists p, point_at arr i = Some p
                      /\ shape_point PARTICLE_COUNT shape i p.
Proof.
  intros Hs. split; [reflexivity|]. split.
  - destruct (shapes_table PARTICLE_COUNT s Hs) as (table & s' & Hrun & _ & Htab).
    exists table, s'. split; assumption.
  - intros shape.
    destruct (generate_points PARTICLE_COUNT _ _ s
                (shape_generates PARTICLE_COUNT shape) Hs)
      as (arr & s' & Hrun & _ & Hlen & Hpts).
    exists arr, s'. repeat split; assumption.
Qed.

Lemma sample_rng_unit : unit_draws sample_rng.
Proof. intros k. simpl. lra. Qed.

Lemma shapes_documented_witness :
  PARTICLE_COUNT = 4000%nat
  /\ (exists table s',
        shapes PARTICLE_COUNT sample_rng = Some (table, s')
        /\ forall shape,
             length (table shape) = (PARTICLE_COUNT * 3)%nat
             /\ forall i, (i < PARTICLE_COUNT)%nat ->
                  exists p, point_at (table shape) i = Some p
                            /\ shape_point PARTICLE_COUNT shape i p)
  /\ forall shape, exists arr s',
       generate PARTICLE_COUNT (shape_fn PARTICLE_COUNT shape) sample_rng
         = Some (arr, s')
       /\ length arr = (PARTICLE_COUNT * 3)%nat
       /\ forall i, (i < PARTICLE_COUNT)%nat ->
            exists p, point_at arr i = Some p
                      /\ shape_point PARTICLE_COUNT shape i p.
Proof.
  apply (shapes_documented sample_rng).
  intros k. simpl. lra.
Defined.

(** ** The particle loop *)

Lemma alter_as_insert (arr : list R) (i : nat) (p : R) (g : R -> R) :
  arr !! i = Some p -> <[i := g p]> arr = alter g i arr.
Proof.
  intros Hp. apply list_eq. intros j.
  destruct (decide (i = j)) as [<-|Hne].
  - rewrite list_lookup_insert_eq by (eapply lookup_lt_Some; eassumption).
    rewrite list_lookup_alter_eq, Hp. reflexivity.
  - rewrite list_lookup_insert_ne, list_lookup_alter_ne by assumption.
    reflexivity.
Qed.

(** [positions[i] += (target[i] - positions[i]) * factor]. *)
Lemma add_assign_lerp (factor : R) (target positions : list R) (i : nat)
    (t : R) (s : Rng) :
  (i < length positions)%nat -> target !! i = Some t ->
  add_assign positions i
    (t ← load target i; p ← load positions i; mret ((t - p) * factor)) s
  = Some (alter (fun p => p + (t - p) * factor) i positions, s).
Proof.
  intros Hi Ht.
  destruct (lookup_lt_is_Some_2 positions i Hi) as [p Hp].
  unfold add_assign.
  rewrite (bind_run _ _ _ _ _ (load_run positions i p s Hp)).
  erewrite (bind_run (load target i ≫= _)); cycle 1.
  { rewrite (bind_run _ _ _ _ _ (load_run target i t s Ht)).
    rewrite (bind_run _ _ _ _ _ (load_run positions i p s Hp)).
    reflexivity. }
  rewrite store_run by assumption.
  now rewrite (alter_as_insert positions i p (fun p => p + (t - p) * factor)).
Qed.

(** [positions[i] += (Math.random() - 0.5) * 0.05]. *)
Lemma add_assign_jitter (positions : list R) (i : nat) (s : Rng) :
  (i < length positions)%nat ->
  add_assign positions i (u ← Math_random; mret ((u - 0.5) * 0.05)) s
  = Some (alter (fun p => p + (draws s (used s) - 0.5) * 0.05) i positions,
          {| draws := draws s; used := S (used s) |}).
Proof.
  intros Hi.
  destruct (lookup_lt_is_Some_2 positions i Hi) as [p Hp].
  unfold add_assign.
  rewrite (bind_run _ _ _ _ _ (load_run positions i p s Hp)).
  erewrite (bind_run (Math_random ≫= _)) by reflexivity.
  rewrite store_run by assumption.
  now rewrite (alter_as_insert positions i p
                 (fun p => p + (draws s (used s) - 0.5) * 0.05)).
Qed.

(** One particle: its three coordinates move and are jittered by the next
    three draws; the other coordinates are left alone. *)
Lemma moveParticle_run (factor : R) (target positions : list R) (k : nat)
    (s : Rng) :
  (k * 3 + 2 < length positions)%nat -> length target = length positions ->
  exists positions' s',
    moveParticle factor target k positions s = Some (positions', s')
    /\ draws s' = draws s /\ used s' = (used s + 3)%nat
    /\ length positions' = length positions
    /\ forall j,
         positions' !! j =
         if decide (k * 3 <= j < k * 3 + 3)%nat
         then p ← positions !! j;
              t ← target !! j;
              Some (p + (t - p) * factor
                    + (draws s (used s + (j - k * 3)) - 0.5) * 0.05)
         else positions !! j.
Proof.
  intros Hk Hlen.
  destruct (lookup_lt_is_Some_2 target (k * 3)) as [tx Htx]; [lia|].
  destruct (lookup_lt_is_Some_2 target (k * 3 + 1)) as [ty Hty]; [lia|].
  destruct (lookup_lt_is_Some_2 target (k * 3 + 2)) as [tz Htz]; [lia|].
  unfold moveParticle.
  erewrite bind_run by (apply add_assign_lerp; [lia | eassumption]).
  erewrite bind_run
    by (apply add_assign_lerp; [rewrite !length_alter; lia | eassumption]).
  erewrite bind_run
    by (apply add_assign_lerp; [rewrite !length_alter; lia | eassumption]).
  erewrite bind_run by (apply add_assign_jitter; rewrite !length_alter; lia).
  erewrite bind_run by (apply add_assign_jitter; rewrite !length_alter; lia).
  rewrite add_assign_jitter by (rewrite !length_alter; lia).
  eexists _, _. split; [reflexivity|]. simpl.
  split; [reflexivity|]. split; [lia|]. split; [now rewrite !length_alter|].
  intros j. destruct (decide (k * 3 <= j < k * 3 + 3)%nat) as [Hin|Hout].
  - assert (Hcase : j = (k * 3)%nat \/ j = (k * 3 + 1)%nat \/ j = (k * 3 + 2)%nat)
      by lia.
    destruct Hcase as [-> | [-> | ->]].
    + rewrite !(list_lookup_alter_ne _ _ (k * 3 + 2)%nat) by lia.
      rewrite !(list_lookup_alter_ne _ _ (k * 3 + 1)%nat) by lia.
      rewrite list_lookup_alter_eq.
      rewrite !(list_lookup_alter_ne _ _ (k * 3 + 2)%nat) by lia.
      rewrite !(list_lookup_alter_ne _ _ (k * 3 + 1)%nat) by lia.
      rewrite list_lookup_alter_eq, Htx.
      replace (used s + (k * 3 - k * 3))%nat with (used s) by lia.
      destruct (positions !! (k * 3)%nat); reflexivity.
    + rewrite !(list_lookup_alter_ne _ _ (k * 3 + 2)%nat) by lia.
      rewrite list_lookup_alter_eq.
      rewrite !(list_lookup_alter_ne _ _ (k * 3)%nat) by lia.
      rewrite !(list_lookup_alter_ne _ _ (k * 3 + 2)%nat) by lia.
      rewrite list_lookup_alter_eq.
      rewrite !(list_lookup_alter_ne _ _ (k * 3)%nat) by lia.
      rewrite Hty.
      replace (used s + (k * 3 + 1 - k * 3))%nat with (S (used s)) by lia.
      destruct (positions !! (k * 3 + 1)%nat); reflexivity.
    + rewrite list_lookup_alter_eq.
      rewrite !(list_lookup_alter_ne _ _ (k * 3 + 1)%nat) by lia.
      rewrite !(list_lookup_alter_ne _ _ (k * 3)%nat) by lia.
      rewrite list_lookup_alter_eq.
      rewrite !(list_lookup_alter_ne _ _ (k * 3 + 1)%nat) by lia.
      rewrite !(list_lookup_alter_ne _ _ (k * 3)%nat) by lia.
      rewrite Htz.
      replace (used s + (k * 3 + 2 - k * 3))%nat with (S (S (used s))) by lia.
      destruct (positions !! (k * 3 + 2)%nat); reflexivity.
  - rewrite !list_lookup_alter_ne by lia. reflexivity.
Qed.

(** The whole loop: coordinate [j] ends as [moved] says, from draw [j] of
    the frame, and the loop makes three draws per particle. *)
Lemma moveParticles_run (count : nat) (factor : R) (target positions : list R)
    (s : Rng) :
  length target = (count * 3)%nat -> length positions = (count * 3)%nat ->
  exists positions' s',
    moveParticles count factor target positions s = Some (positions', s')
    /\ draws s' = draws s /\ used s' = (used s + count * 3)%nat
    /\ length positions' = (count * 3)%nat
    /\ forall j, (j < count * 3)%nat ->
         positions' !! j = moved factor target positions s j.
Proof.
  intros Htl Hpl. unfold moveParticles.
  destruct (for_loop_invariant
    (fun k pos t =>
       draws t = draws s /\ used t = (used s + k * 3)%nat
       /\ length pos = (count * 3)%nat
       /\ forall j,
            pos !! j = if decide (j < k * 3)%nat
                       then moved factor target positions s j
                       else positions !! j)
    (moveParticle factor target) count 0%nat positions s)
    as (pos' & s' & Hrun & Hd & Hu & Hl & Hj).
  - split; [reflexivity|]. split; [lia|]. split; [assumption|].
    intros j. destruct (decide (j < 0 * 3)%nat); [lia | reflexivity].
  - intros k pos t Hk (Hd & Hu & Hl & Hj).
    destruct (moveParticle_run factor target pos k t)
      as (pos' & t' & Hrun & Hd' & Hu' & Hl' & Hj'); [lia | lia |].
    exists pos', t'. split; [assumption|].
    split; [congruence|]. split; [lia|]. split; [lia|].
    intros j. rewrite Hj'.
    destruct (decide (k * 3 <= j < k * 3 + 3)%nat) as [Hin|Hout].
    + destruct (decide (j < S k * 3)%nat); [|lia].
      rewrite Hj. destruct (decide (j < k * 3)%nat); [lia|].
      unfold moved, jitter. rewrite Hd, Hu.
      replace (used s + k * 3 + (j - k * 3))%nat with (used s + j)%nat by lia.
      reflexivity.
    + rewrite Hj.
      destruct (decide (j < k * 3)%nat), (decide (j < S k * 3)%nat);
        try lia; reflexivity.
  - exists pos', s'. split; [assumption|]. split; [assumption|].
    split; [lia|]. split; [assumption|].
    intros j Hlt. rewrite Hj. simpl.
    destruct (decide (j < count * 3)%nat); [reflexivity | lia].
Qed.

Lemma jitter_range (s : Rng) (j : nat) :
  unit_draws s -> -0.025 <= jitter s j < 0.025.
Proof.
  intros Hs. unfold jitter. pose proof (Hs (used s + j)%nat). lra.
Qed.

(** ** The animation frame *)

Lemma animateWith_run (count : nat) (factor : R) (st : Scene) (s : Rng) :
  scene_sized count st ->
  exists positions' s',
    moveParticles count factor (targetPositions st) (positions st) s
      = Some (positions', s')
    /\ draws s' = draws s /\ used s' = (used s + count * 3)%nat
    /\ length positions' = (count * 3)%nat
    /\ (forall j, (j < count * 3)%nat ->
          positions' !! j
          = moved factor (targetPositions st) (positions st) s j)
    /\ animateWith count factor st s
       = Some ({| targetPositions := targetPositions st;
                  currentShape := currentShape st;
                  rotationSpeed := rotationSpeed st;
                  groupScale := groupScale st;
                  currentColor :=
                    Color_lerp (currentColor st) (targetColor st) COLOR_LERP_FACTOR;
                  targetColor := targetColor st;
                  positions := positions';
                  materialColor :=
                    Color_lerp (currentColor st) (targetColor st) COLOR_LERP_FACTOR;
                  rotation_z := rotation_z st + rotationSpeed st;
                  rotation_y := rotation_y st + rotationSpeed st * 0.5;
                  scale :=
                    Vector3_lerp (scale st)
                      {| vx := groupScale st; vy := groupScale st;
                         vz := groupScale st |} 0.1 |}, s').
Proof.
  intros [Htl Hpl].
  destruct (moveParticles_run count factor _ _ s Htl Hpl)
    as (pos' & s' & Hrun & Hd & Hu & Hl & Hj).
  exists pos', s'. repeat (split; [assumption|]).
  unfold animateWith. rewrite (bind_run _ _ _ _ _ Hrun). reflexivity.
Qed.

(** What every scene of a session satisfies. *)
Lemma reachable_invariant (count : nat) (table : ShapeType -> list R)
    (setHSL : R -> R -> R -> Color) (color0 : Color) (st : Scene) :
  table_sized count table ->
  reachable count table setHSL color0 st ->
  scene_sized count st
  /\ (rotationSpeed st = 0.001 \/ rotationSpeed st = 0.15
      \/ rotationSpeed st = 0.002).
Proof.
  intros Htab Hreach. induction Hreach as [st Hm | m st st' _ IH Hup | st st' s s' _ IH Hfr].
  - destruct (mount_sized count table color0 Htab)
      as (st0 & Hm0 & Hsz & _ & _ & _ & Hr & _).
    rewrite Hm in Hm0. injection Hm0 as <-. auto.
  - destruct IH as [Hsz _].
    destruct (physics_speed count table setHSL m st Htab Hsz)
      as (st1 & Hup1 & Hsz1 & Hr).
    rewrite Hup in Hup1. injection Hup1 as <-. split; [assumption|].
    destruct Hr; auto.
  - destruct IH as [Hsz Hr].
    destruct (animateWith_run count POS_LERP_FACTOR st s Hsz)
      as (pos' & s1 & _ & _ & _ & Hl & _ & Hrun).
    rewrite Hfr in Hrun. injection Hrun as -> _.
    split; [|exact Hr]. split; [apply Hsz | exact Hl].
Qed.

(** A frame of the moving sample scene, run: with every draw at 0.5 the
    jitter is 0 and each coordinate goes from 1 to 1.08 on its way to 2. *)
Example sample_frame :
  exists st' s' a b c,
    animateWith 1 POS_LERP_FACTOR sample_moving sample_rng = Some (st', s')
    /\ positions st' = [a; b; c]
    /\ a = 1.08 /\ b = 1.08 /\ c = 1.08
    /\ used s' = 3%nat.
Proof.
  eexists _, _, _, _, _.
  split; [unfold animateWith; simpl; reflexivity|]. simpl.
  split; [reflexivity|]. unfold POS_LERP_FACTOR. repeat split; lra.
Qed.

(** C7.  One animation frame of a scene of the session does exactly this:
    every channel of the current colour moves 5% of its distance to the
    target colour (and the material shows it); every coordinate moves 8% of
    its distance to its target and then receives a jitter in
    [-0.025, 0.025) made of a draw of its own; every component of the object
    scale moves 10% of its distance to the target scale; the two rotation
    angles grow by [rotationSpeed] and by [rotationSpeed * 0.5], with no
    smoothing; the targets are not touched.  [animate] is this frame at
    [PARTICLE_COUNT] particles. *)
Theorem animate_frame (count : nat) (table : ShapeType -> list R)
    (setHSL : R -> R -> R -> Color) (color0 : Color) (st : Scene) (s : Rng) :
  table_sized count table ->
  reachable count table setHSL color0 st ->
  unit_draws s ->
  exists st' s',
    animateWith count POS_LERP_FACTOR st s = Some (st', s')
    /\ (closes_gap 0.05 (cr (currentColor st)) (cr (targetColor st)) (cr (currentColor st'))
        /\ closes_gap 0.05 (cg (currentColor st)) (cg (targetColor st)) (cg (currentColor st'))
        /\ closes_gap 0.05 (cb (currentColor st)) (cb (targetColor st)) (cb (currentColor st')))
    /\ materialColor st' = currentColor st'
    /\ length (positions st') = (count * 3)%nat
    /\ (forall j, (j < count * 3)%nat ->
          exists p t p',
            positions st !! j = Some p
            /\ targetPositions st !! j = Some t
            /\ closes_gap 0.08 p t p'
            /\ positions st' !! j = Some (p' + jitter s j)
            /\ -0.025 <= jitter s j < 0.025)
    /\ used s' = (used s + count * 3)%nat
    /\ (closes_gap 0.1 (vx (scale st)) (groupScale st) (vx (scale st'))
        /\ closes_gap 0.1 (vy (scale st)) (groupScale st) (vy (scale st'))
        /\ closes_gap 0.1 (vz (scale st)) (groupScale st) (vz (scale st')))
    /\ (rotation_z st' = rotation_z st + rotationSpeed st
        /\ rotation_y st' = rotation_y st + rotationSpeed st * 0.5
        /\ rotation_z st < rotation_z st'
        /\ rotation_y st < rotation_y st')
    /\ (targetPositions st' = targetPositions st
        /\ currentShape st' = currentShape st
        /\ rotationSpeed st' = rotationSpeed st
        /\ groupScale st' = groupScale st
        /\ targetColor st' = targetColor st).
Proof.
  intros Htab Hreach Hs.
  destruct (reachable_invariant count table setHSL color0 st Htab Hreach)
    as [Hsz Hspeed].
  destruct (animateWith_run count POS_LERP_FACTOR st s Hsz)
    as (pos' & s' & _ & _ & Hu & Hl & Hj & Hrun).
  eexists _, s'. split; [exact Hrun|]. simpl.
  split; [unfold closes_gap, COLOR_LERP_FACTOR; repeat split; lra|].
  split; [reflexivity|]. split; [assumption|]. split.
  { intros j Hlt. destruct Hsz as [Htl Hpl].
    destruct (lookup_lt_is_Some_2 (positions st) j) as [p Hp]; [lia|].
    destruct (lookup_lt_is_Some_2 (targetPositions st) j) as [t Ht]; [lia|].
    exists p, t, (p + (t - p) * POS_LERP_FACTOR).
    split; [assumption|]. split; [assumption|].
    split; [unfold closes_gap, POS_LERP_FACTOR; lra|].
    split; [|now apply jitter_range].
    rewrite (Hj j Hlt). unfold moved. rewrite Hp, Ht. reflexivity. }
  split; [assumption|].
  split; [unfold closes_gap; repeat split; lra|].
  split; [repeat split; lra|].
  repeat split; reflexivity.
Qed.

Lemma animate_frame_witness :
  exists st' s',
    animateWith 1 POS_LERP_FACTOR sample_scene sample_rng = Some (st', s')
    /\ (closes_gap 0.05 (cr (currentColor sample_scene))
          (cr (targetColor sample_scene)) (cr (currentColor st'))
        /\ closes_gap 0.05 (cg (currentColor sample_scene))
             (cg (targetColor sample_scene)) (cg (currentColor st'))
        /\ closes_gap 0.05 (cb (currentColor sample_scene))
             (cb (targetColor sample_scene)) (cb (currentColor st')))
    /\ materialColor st' = currentColor st'
    /\ length (positions st') = (1 * 3)%nat
    /\ (forall j, (j < 1 * 3)%nat ->
          exists p t p',
            positions sample_scene !! j = Some p
            /\ targetPositions sample_scene !! j = Some t
            /\ closes_gap 0.08 p t p'
            /\ positions st' !! j = Some (p' + jitter sample_rng j)
            /\ -0.025 <= jitter sample_rng j < 0.025)
    /\ used s' = (used sample_rng + 1 * 3)%nat
    /\ (closes_gap 0.1 (vx (scale sample_scene)) (groupScale sample_scene)
          (vx (scale st'))
        /\ closes_gap 0.1 (vy (scale sample_scene)) (groupScale sample_scene)
             (vy (scale st'))
        /\ closes_gap 0.1 (vz (scale sample_scene)) (groupScale sample_scene)
             (vz (scale st')))
    /\ (rotation_z st' = rotation_z sample_scene + rotationSpeed sample_scene
        /\ rotation_y st'
           = rotation_y sample_scene + rotationSpeed sample_scene * 0.5
        /\ rotation_z sample_scene < rotation_z st'
        /\ rotation_y sample_scene < rotation_y st')
    /\ (targetPositions st' = targetPositions sample_scene
        /\ currentShape st' = currentShape sample_scene
        /\ rotationSpeed st' = rotationSpeed sample_scene
        /\ groupScale st' = groupScale sample_scene
        /\ targetColor st' = targetColor sample_scene).
Proof.
  apply (animate_frame 1 sample_table sample_setHSL sample_color
           sample_scene sample_rng).
  - intros []; reflexivity.
  - apply reach_mount. reflexivity.
  - intros k. simpl. lra.
Defined.

(** ** Convergence of the particle loop *)

Lemma gap_nonneg (target positions : list R) (j : nat) :
  0 <= gap target positions j.
Proof.
  unfold gap. destruct (positions !! j), (target !! j);
    try apply Rabs_pos; lra.
Qed.


(** One frame: the gap of every coordinate shrinks by the factor
    [1 - factor], up to the jitter. *)
Lemma frame_gap (count : nat) (factor : R) (st : Scene) (s : Rng) :
  0 < factor <= 1 -> scene_sized count st -> unit_draws s ->
  exists st' s',
    animateWith count factor st s = Some (st', s')
    /\ scene_sized count st'
    /\ targetPositions st' = targetPositions st
    /\ draws s' = draws s
    /\ forall j,
         gap (targetPositions st) (positions st') j
         <= (1 - factor) * gap (targetPositions st) (positions st) j
            + JITTER_BOUND.
Proof.
  intros Hf Hsz Hs.
  destruct (animateWith_run count factor st s Hsz)
    as (pos' & s' & _ & Hd & _ & Hl & Hj & Hrun).
  eexists _, s'. split; [exact Hrun|]. simpl.
  destruct Hsz as [Htl Hpl].
  split; [split; assumption|]. split; [reflexivity|]. split; [assumption|].
  intros j. destruct (decide (j < count * 3)%nat) as [Hlt|Hge].
  - destruct (lookup_lt_is_Some_2 (positions st) j) as [p Hp]; [lia|].
    destruct (lookup_lt_is_Some_2 (targetPositions st) j) as [t Ht]; [lia|].
    pose proof (jitter_range s j Hs) as Hjit.
    unfold gap. rewrite (Hj j Hlt). unfold moved. rewrite Hp, Ht. simpl.
    unfold JITTER_BOUND.
    assert (Hup : p - t <= Rabs (p - t)) by apply Rle_abs.
    assert (Hlo : - (p - t) <= Rabs (p - t))
      by (rewrite <- Rabs_Ropp; apply Rle_abs).
    apply Rabs_le. split; nra.
  - unfold gap at 1. rewrite (lookup_ge_None_2 pos') by lia.
    pose proof (gap_nonneg (targetPositions st) (positions st) j).
    unfold JITTER_BOUND. nra.
Qed.

Lemma frames_snoc (count : nat) (factor : R) (n : nat) (st : Scene) (s : Rng) :
  frames count factor (S n) st s
  = match frames count factor n st s with
    | Some (st_n, s_n) => animateWith count factor st_n s_n
    | None => None
    end.
Proof.
  revert st s. induction n as [|n IH]; intros st s.
  - simpl. unfold mbind, M_bind, mret, M_ret.
    destruct (animateWith count factor st s) as [[st' s']|]; reflexivity.
  - change (frames count factor (S (S n)) st s)
      with ((animateWith count factor st
               ≫= frames count factor (S n)) s).
    change (frames count factor (S n) st s)
      with ((animateWith count factor st ≫= frames count factor n) s).
    unfold mbind, M_bind.
    destruct (animateWith count factor st s) as [[st' s']|]; [|reflexivity].
    apply IH.
Qed.

(** [n] frames: they all run, and the part of the gap above the steady band
    has shrunk by [(1 - factor) ^ n]. *)
Lemma frames_run (count : nat) (factor : R) (st : Scene) (s : Rng) (n : nat) :
  0 < factor <= 1 -> scene_sized count st -> unit_draws s ->
  exists st_n s_n,
    frames count factor n st s = Some (st_n, s_n)
    /\ scene_sized count st_n
    /\ targetPositions st_n = targetPositions st
    /\ unit_draws s_n
    /\ forall j,
         gap (targetPositions st) (positions st_n) j - steady_band factor
         <= (1 - factor) ^ n
            * (gap (targetPositions st) (positions st) j - steady_band factor).
Proof.
  intros Hf Hsz Hs. induction n as [|n IH].
  - exists st, s. split; [reflexivity|]. repeat (split; [assumption || reflexivity|]).
    intros j. simpl. lra.
  - destruct IH as (st_n & s_n & Hrun & Hsz_n & Htgt & Hs_n & Hgap).
    destruct (frame_gap count factor st_n s_n Hf Hsz_n Hs_n)
      as (st' & s' & Hfr & Hsz' & Htgt' & Hd' & Hstep).
    exists st', s'. rewrite frames_snoc, Hrun.
    split; [assumption|]. split; [assumption|]. split; [congruence|].
    split; [now apply (unit_draws_same s_n)|].
    intros j. specialize (Hgap j). specialize (Hstep j).
    rewrite Htgt in Hstep.
    assert (Hband : JITTER_BOUND = factor * steady_band factor).
    { unfold steady_band. field. lra. }
    assert (Hpow : 0 <= (1 - factor) ^ n) by (apply pow_le; lra).
    simpl. nra.
Qed.



(** ** A scene without particles *)

(** C9.  At particle count 0 the generators return empty buffers, without a
    call of the generator function or of [Math.random]; the scene mounts
    with empty buffers; the particle loop does no iteration and the frame
    runs, leaving the empty positions buffer as it is.  No index leaves its
    buffer and nothing fails. *)
Theorem zero_particles (fn : nat -> M Vec3) (factor : R)
    (target positions : list R) (color0 : Color) (s : Rng) :
  generate 0 fn s = Some ([], s)
  /\ moveParticles 0 factor target positions s = Some (positions, s)
  /\ exists table st st',
       shapes 0 s = Some (table, s)
       /\ (forall shape, table shape = [])
       /\ mount table 0 color0 = Some st
       /\ positions_empty st
       /\ animateWith 0 factor st s = Some (st', s)
       /\ positions_empty st'.
Proof.
  split; [reflexivity|]. split; [reflexivity|].
  eexists _, _, _. split; [reflexivity|]. simpl.
  split; [intros []; reflexivity|].
  split; [reflexivity|]. split; [split; reflexivity|].
  split; [unfold animateWith; simpl; reflexivity|]. split; reflexivity.
Qed.

(** * Further properties *)

(** ** The feature extractor *)

Section Extractor.
Import Gesture.







Lemma analyzeHand_take (landmarks : list Landmark) :
  analyzeHand (take 21 landmarks) = analyzeHand landmarks.
Proof.
  unfold analyzeHand, extendedDigits.
  unfold WRIST, THUMB_IP, THUMB_TIP, INDEX_FINGER_PIP, INDEX_FINGER_TIP,
    MIDDLE_FINGER_MCP, MIDDLE_FINGER_PIP, MIDDLE_FINGER_TIP, RING_FINGER_PIP,
    RING_FINGER_TIP, PINKY_MCP, PINKY_PIP, PINKY_TIP.
  rewrite !lookup_take_lt by lia. reflexivity.
Qed.

Lemma analyzeHand_short (landmarks : list Landmark) :
  (length landmarks < 21)%nat -> analyzeHand landmarks = None.
Proof.
  intros Hlen.
  assert (H20 : landmarks !! PINKY_TIP = None)
    by (apply lookup_ge_None_2; unfold PINKY_TIP; lia).
  unfold analyzeHand, extendedDigits. rewrite H20.
  repeat match goal with
    | |- context [landmarks !! ?i] =>
        destruct (landmarks !! i); simpl; [|reflexivity]
    end.
  reflexivity.
Qed.

(** X4.  [analyzeHand] returns exactly when it is given at least 21
    landmarks (with fewer, a lookup throws), and it reads the first 21 only:
    whatever follows them is ignored. *)
Theorem analyzeHand_needs_21 (landmarks : list Landmark) :
  (is_Some (analyzeHand landmarks) <-> (21 <= length landmarks)%nat)
  /\ analyzeHand (take 21 landmarks) = analyzeHand landmarks.
Proof.
  split; [|apply analyzeHand_take]. split.
  - intros [m Hm].
    destruct (decide (21 <= length landmarks)%nat) as [|Hn]; [assumption|].
    rewrite analyzeHand_short in Hm by lia. discriminate.
  - intros Hlen. rewrite <- analyzeHand_take.
    assert (Hl : length (take 21 landmarks) = 21%nat)
      by (rewrite length_take; lia).
    destruct (extendedDigits_total _ Hl) as (e & He & _).
    destruct (analyzeHand_total _ e Hl He) as (m & Hm & _).
    rewrite Hm. eauto.
Qed.

(** X5.  The thumb never decides the fist: on 21 landmarks [isFist] holds
    exactly when none of index, middle, ring and pinky is classified as
    extended.  So a fist counts at most one digit, and an open hand counts
    between one and five. *)
Theorem isFist_iff_fingers_curled (landmarks : list Landmark) :
  length landmarks = 21%nat ->
  exists e m,
    extendedDigits landmarks = Some e
    /\ analyzeHand landmarks = Some m
    /\ (isFist m = true <-> forall d, d <> Thumb -> classified e d = false)
    /\ (isFist m = true -> (0 <= fingerCount m <= 1)%Z)
    /\ (isFist m = false -> (1 <= fingerCount m <= 5)%Z).
Proof.
  intros Hlen.
  destruct (extendedDigits_total landmarks Hlen) as (e & He & _).
  destruct (analyzeHand_total landmarks e Hlen He) as (m & Hm & Hfc & Hfist).
  exists e, m. split; [assumption|]. split; [assumption|].
  rewrite Hfc, Hfist. clear Hm Hfc Hfist He.
  split; [split|].
  - intros H d Hd.
    destruct e as [[] [] [] [] []], d; simpl in *;
      try reflexivity; try discriminate; contradiction.
  - intros H.
    pose proof (H Index ltac:(discriminate)) as Hi.
    pose proof (H Middle ltac:(discriminate)) as Hmi.
    pose proof (H Ring ltac:(discriminate)) as Hr.
    pose proof (H Pinky ltac:(discriminate)) as Hp.
    simpl in *. rewrite Hi, Hmi, Hr, Hp.
    destruct (isThumbExtended e) eqn:Ht; destruct e; simpl in *; subst;
      reflexivity.
  - destruct e as [[] [] [] [] []]; cbv; split; intros; try discriminate;
      split; discriminate.
Qed.

Lemma isFist_iff_fingers_curled_witness :
  exists e m,
    extendedDigits sample_thumb_hand = Some e
    /\ analyzeHand sample_thumb_hand = Some m
    /\ (isFist m = true <-> forall d, d <> Thumb -> classified e d = false)
    /\ (isFist m = true -> (0 <= fingerCount m <= 1)%Z)
    /\ (isFist m = false -> (1 <= fingerCount m <= 5)%Z).
Proof.
  apply (isFist_iff_fingers_curled sample_thumb_hand). reflexivity.
Defined.



End Extractor.

(** ** The gesture-to-state mapper *)

Lemma selectShape_again (current : ShapeType) (n : Z) :
  selectShape (selectShape current n) n = selectShape current n.
Proof.
  unfold selectShape.
  repeat match goal with
    | |- context [(n =? ?c)%Z] => destruct (n =? c)%Z; [reflexivity|]
    end.
  reflexivity.
Qed.

(** One run of the effect, field by field. *)
Lemma updateTargets_fields (count : nat) (table : ShapeType -> list R)
    (setHSL : R -> R -> R -> Color) (m : HandMetrics) (st : Scene) :
  table_sized count table -> scene_sized count st ->
  exists st',
    updateTargets table setHSL m st = Some st'
    /\ scene_sized count st'
    /\ (positions st' = positions st
        /\ currentColor st' = currentColor st
        /\ materialColor st' = materialColor st
        /\ rotation_z st' = rotation_z st
        /\ rotation_y st' = rotation_y st
        /\ scale st' = scale st)
    /\ (if isFist m
        then currentShape st' = currentShape st
             /\ targetPositions st' = targetPositions st
             /\ groupScale st' = 0.4 /\ rotationSpeed st' = 0.15
             /\ targetColor st'
                = setHSL (Math_max 0 (Math_min 1 (1 - vx (position m)))) 1.0 0.5
        else currentShape st' = selectShape (currentShape st) (fingerCount m)
             /\ targetPositions st'
                = (if decide (selectShape (currentShape st) (fingerCount m)
                              = currentShape st)
                   then targetPositions st
                   else table (selectShape (currentShape st) (fingerCount m)))
             /\ groupScale st'
                = 1.0 + (1 - Math_max 0.05 (Math_min 0.5 (palmDepth m)) * 2)
             /\ rotationSpeed st' = 0.002
             /\ targetColor st' = targetColor st).
Proof.
  intros Htab Hst. run_update Htab Hst.
  - eexists; split; [reflexivity|]. split; [exact Hst|]. simpl.
    repeat split; reflexivity.
  - eexists; split; [reflexivity|]. split.
    { split; simpl; [apply Htab | apply Hst]. }
    simpl. destruct (decide _) as [Heq|_]; [contradiction|].
    repeat split; reflexivity.
  - eexists; split; [reflexivity|]. split; [exact Hst|]. simpl.
    destruct (decide _) as [Heq'|Hne].
    + repeat split; try reflexivity. now symmetry.
    + exfalso. apply Heq. exact Hne.
Qed.

Lemma depth_scale_range (d : R) :
  1.0 <= 1.0 + (1 - Math_max 0.05 (Math_min 0.5 d) * 2) <= 1.9.
Proof.
  rewrite max_min_clamp by lra. pose proof (depth_clamp_bounds d). lra.
Qed.

(** X7.  Applying the same metrics twice is applying them once: a second
    run of the effect on unchanged metrics leaves the scene as the first run
    made it. *)
Theorem updateTargets_idempotent (count : nat) (table : ShapeType -> list R)
    (setHSL : R -> R -> R -> Color) (m : HandMetrics) (st : Scene) :
  table_sized count table -> scene_sized count st ->
  exists st',
    updateTargets table setHSL m st = Some st'
    /\ updateTargets table setHSL m st' = Some st'.
Proof.
  intros Htab Hst. run_update Htab Hst.
  - eexists; split; reflexivity.
  - eexists; split; [reflexivity|]. simpl.
    rewrite selectShape_again.
    destruct (decide _) as [Habs|_]; [contradiction|]. reflexivity.
  - eexists; split; [reflexivity|]. simpl.
    destruct (decide _) as [Habs|_]; [contradiction|]. reflexivity.
Qed.

Lemma updateTargets_idempotent_witness :
  exists st',
    updateTargets sample_table sample_setHSL sample_open sample_scene = Some st'
    /\ updateTargets sample_table sample_setHSL sample_open st' = Some st'.
Proof.
  apply (updateTargets_idempotent 1 sample_table sample_setHSL sample_open
           sample_scene).
  - intros []; reflexivity.
  - split; reflexivity.
Defined.

(** X8.  For open hands the target scale never grows with the palm depth:
    of two open hands, the one with the larger palm depth (the closer one)
    gets the smaller or equal target scale. *)
Theorem groupScale_antitone (count : nat) (table : ShapeType -> list R)
    (setHSL : R -> R -> R -> Color) (m1 m2 : HandMetrics) (st1 st2 : Scene) :
  table_sized count table -> scene_sized count st1 -> scene_sized count st2 ->
  isFist m1 = false -> isFist m2 = false ->
  palmDepth m1 <= palmDepth m2 ->
  exists st1' st2',
    updateTargets table setHSL m1 st1 = Some st1'
    /\ updateTargets table setHSL m2 st2 = Some st2'
    /\ groupScale st2' <= groupScale st1'.
Proof.
  intros Htab Hst1 Hst2 Hm1 Hm2 Hle.
  destruct (updateTargets_fields count table setHSL m1 st1 Htab Hst1)
    as (st1' & Hu1 & _ & _ & H1).
  destruct (updateTargets_fields count table setHSL m2 st2 Htab Hst2)
    as (st2' & Hu2 & _ & _ & H2).
  rewrite Hm1 in H1. rewrite Hm2 in H2.
  destruct H1 as (_ & _ & Hg1 & _). destruct H2 as (_ & _ & Hg2 & _).
  exists st1', st2'. split; [assumption|]. split; [assumption|].
  rewrite Hg1, Hg2, !max_min_clamp by lra.
  unfold clamp. repeat destruct Rlt_dec; lra.
Qed.

Lemma groupScale_antitone_witness :
  exists st1' st2',
    updateTargets sample_table sample_setHSL sample_far sample_scene = Some st1'
    /\ updateTargets sample_table sample_setHSL sample_open sample_moving
       = Some st2'
    /\ groupScale st2' <= groupScale st1'.
Proof.
  apply (groupScale_antitone 1 sample_table sample_setHSL sample_far
           sample_open sample_scene sample_moving).
  - intros []; reflexivity.
  - split; reflexivity.
  - split; reflexivity.
  - reflexivity.
  - reflexivity.
  - simpl. lra.
Defined.

Lemma abs_le_bounds (x a : R) : Rabs x <= a -> - a <= x <= a.
Proof. unfold Rabs. destruct (Rcase_abs x); lra. Qed.

Lemma played_reachable (count : nat) (table : ShapeType -> list R)
    (setHSL : R -> R -> R -> Color) (color0 : Color) (st : Scene) :
  played count table setHSL color0 st -> reachable count table setHSL color0 st.
Proof.
  induction 1 as [st Hm | m st st' _ IH Hup | st st' s s' _ IH _ Hfr].
  - now apply reach_mount.
  - now apply (reach_update _ _ _ _ m st).
  - now apply (reach_frame _ _ _ _ st st' s s').
Qed.

Lemma mount_scale (count : nat) (table : ShapeType -> list R) (color0 : Color)
    (st : Scene) :
  mount table count color0 = Some st -> scale st = mkVec3 1 1 1.
Proof.
  unfold mount.
  destruct (typed_set (new_Float32Array (count * 3)) (table HEART)); simpl;
    [|discriminate].
  now intros [= <-].
Qed.

(** What every scene of a session satisfies, whatever the oracle. *)
Lemma reachable_state (count : nat) (table : ShapeType -> list R)
    (setHSL : R -> R -> R -> Color) (color0 : Color) (st : Scene) :
  table_sized count table ->
  reachable count table setHSL color0 st ->
  scene_sized count st
  /\ target_cached table st
  /\ (rotationSpeed st = 0.001 \/ rotationSpeed st = 0.15
      \/ rotationSpeed st = 0.002)
  /\ (groupScale st = 0.4 \/ 1.0 <= groupScale st <= 1.9)
  /\ (vx (scale st) = vy (scale st) /\ vy (scale st) = vz (scale st)
      /\ 0.4 <= vx (scale st) <= 1.9).
Proof.
  intros Htab Hreach.
  induction Hreach as [st Hm | m st st' _ IH Hup | st st' s s' _ IH Hfr].
  - pose proof (mount_scale _ _ _ _ Hm) as Hsc.
    destruct (mount_sized count table color0 Htab)
      as (st0 & Hm0 & Hsz & Htg & _ & Hsh & Hr & Hg).
    rewrite Hm in Hm0. injection Hm0 as <-.
    split; [assumption|]. split; [unfold target_cached; congruence|].
    split; [auto|]. split; [right; lra|]. rewrite Hsc. simpl.
    repeat split; lra.
  - destruct IH as (Hsz & Hcached & _ & _ & Hscale).
    destruct (updateTargets_fields count table setHSL m st Htab Hsz)
      as (st1 & Hup1 & Hsz1 & (_ & _ & _ & _ & _ & Hsc) & Hcase).
    rewrite Hup in Hup1. injection Hup1 as <-.
    split; [assumption|]. rewrite Hsc. unfold target_cached in *.
    destruct (isFist m).
    + destruct Hcase as (Hs & Ht & Hg & Hr & _).
      split; [congruence|]. split; [auto|]. split; [auto|]. exact Hscale.
    + destruct Hcase as (Hs & Ht & Hg & Hr & _).
      split.
      { rewrite Ht, Hs. destruct (decide _) as [Heq|_]; [|reflexivity].
        now rewrite Heq. }
      split; [auto|]. split; [|exact Hscale].
      right. rewrite Hg. apply depth_scale_range.
  - destruct IH as (Hsz & Hcached & Hr & Hg & Hx & Hy & Hrange).
    destruct (animateWith_run count POS_LERP_FACTOR st s Hsz)
      as (pos' & s1 & _ & _ & _ & Hl & _ & Hrun).
    rewrite Hfr in Hrun. injection Hrun as -> _.
    split; [split; [apply Hsz | exact Hl]|].
    split; [exact Hcached|]. split; [exact Hr|]. split; [exact Hg|].
    simpl. rewrite <- Hy, <- Hx. repeat split; lra.
Qed.

(** X9.  In every scene of a session the target buffer holds the cached
    point set of the current shape, both buffers hold [count] points, the
    rotation speed is 0.001, 0.15 or 0.002 and the target scale is 0.4 or in
    [1.0, 1.9]. *)
Theorem reachable_targets (count : nat) (table : ShapeType -> list R)
    (setHSL : R -> R -> R -> Color) (color0 : Color) (st : Scene) :
  table_sized count table ->
  reachable count table setHSL color0 st ->
  targetPositions st = table (currentShape st)
  /\ length (targetPositions st) = (count * 3)%nat
  /\ length (positions st) = (count * 3)%nat
  /\ (rotationSpeed st = 0.001 \/ rotationSpeed st = 0.15
      \/ rotationSpeed st = 0.002)
  /\ (groupScale st = 0.4 \/ 1.0 <= groupScale st <= 1.9).
Proof.
  intros Htab Hreach.
  destruct (reachable_state count table setHSL color0 st Htab Hreach)
    as ([Htl Hpl] & Hc & Hr & Hg & _).
  auto.
Qed.

Lemma reachable_targets_witness :
  targetPositions sample_scene = sample_table (currentShape sample_scene)
  /\ length (targetPositions sample_scene) = (1 * 3)%nat
  /\ length (positions sample_scene) = (1 * 3)%nat
  /\ (rotationSpeed sample_scene = 0.001 \/ rotationSpeed sample_scene = 0.15
      \/ rotationSpeed sample_scene = 0.002)
  /\ (groupScale sample_scene = 0.4 \/ 1.0 <= groupScale sample_scene <= 1.9).
Proof.
  apply (reachable_targets 1 sample_table sample_setHSL sample_color sample_scene).
  - intros []; reflexivity.
  - apply reach_mount. reflexivity.
Defined.

(** X10.  The rendered scale of every scene of a session is uniform (the
    same on the three axes) and stays in [0.4, 1.9]. *)
Theorem reachable_scale (count : nat) (table : ShapeType -> list R)
    (setHSL : R -> R -> R -> Color) (color0 : Color) (st : Scene) :
  table_sized count table ->
  reachable count table setHSL color0 st ->
  vx (scale st) = vy (scale st) /\ vy (scale st) = vz (scale st)
  /\ 0.4 <= vx (scale st) <= 1.9.
Proof.
  intros Htab Hreach.
  destruct (reachable_state count table setHSL color0 st Htab Hreach)
    as (_ & _ & _ & _ & Hscale).
  exact Hscale.
Qed.

Lemma reachable_scale_witness :
  vx (scale sample_scene) = vy (scale sample_scene)
  /\ vy (scale sample_scene) = vz (scale sample_scene)
  /\ 0.4 <= vx (scale sample_scene) <= 1.9.
Proof.
  apply (reachable_scale 1 sample_table sample_setHSL sample_color sample_scene).
  - intros []; reflexivity.
  - apply reach_mount. reflexivity.
Defined.

(** The positions stay within the steady band of the box of the targets. *)
Lemma played_bounded (count : nat) (table : ShapeType -> list R)
    (setHSL : R -> R -> R -> Color) (color0 : Color) (bound : R) (st : Scene) :
  table_sized count table -> table_bounded bound table ->
  played count table setHSL color0 st ->
  Forall (fun p => Rabs p <= bound + steady_band POS_LERP_FACTOR)
    (positions st).
Proof.
  intros Htab Hbound Hplayed. apply Forall_lookup.
  assert (Hband : steady_band POS_LERP_FACTOR = 0.3125)
    by (unfold steady_band, JITTER_BOUND, POS_LERP_FACTOR; lra).
  induction Hplayed as [st Hm | m st st' Hpl IH Hup | st st' s s' Hpl IH Hs Hfr].
  - destruct (mount_sized count table color0 Htab)
      as (st0 & Hm0 & _ & _ & Hpos & _).
    rewrite Hm in Hm0. injection Hm0 as <-.
    intros j p Hp. rewrite Hpos in Hp. apply Hbound in Hp. lra.
  - pose proof (played_reachable _ _ _ _ _ Hpl) as Hreach.
    destruct (reachable_state count table setHSL color0 st Htab Hreach)
      as (Hsz & _).
    destruct (updateTargets_fields count table setHSL m st Htab Hsz)
      as (st1 & Hup1 & _ & (Hpos & _) & _).
    rewrite Hup in Hup1. injection Hup1 as <-. rewrite Hpos. exact IH.
  - pose proof (played_reachable _ _ _ _ _ Hpl) as Hreach.
    destruct (reachable_state count table setHSL color0 st Htab Hreach)
      as (Hsz & Hcached & _).
    destruct (animateWith_run count POS_LERP_FACTOR st s Hsz)
      as (pos' & s1 & _ & _ & _ & Hl & Hj & Hrun).
    rewrite Hfr in Hrun. injection Hrun as -> _. simpl.
    intros j p' Hp'.
    assert (Hlt : (j < count * 3)%nat)
      by (rewrite <- Hl; eapply lookup_lt_Some; eassumption).
    rewrite (Hj j Hlt) in Hp'. unfold moved in Hp'.
    destruct (positions st !! j) as [p|] eqn:Hp; simpl in Hp'; [|discriminate].
    destruct (targetPositions st !! j) as [t|] eqn:Ht; simpl in Hp';
      [|discriminate].
    injection Hp' as <-.
    specialize (IH j p Hp). rewrite Hcached in Ht. apply Hbound in Ht.
    pose proof (jitter_range s j Hs) as Hjit.
    unfold POS_LERP_FACTOR in *.
    apply Rabs_le. apply abs_le_bounds in IH, Ht. lra.
Qed.

(** X11.  Particles do not fly away: when every coordinate of the cached
    point sets is within [bound] of 0, every coordinate of the positions
    buffer stays within [bound] + 0.025 / 0.08 of 0, in every scene of a
    session whose random draws are in [0, 1). *)
Theorem played_positions_bounded (count : nat) (table : ShapeType -> list R)
    (setHSL : R -> R -> R -> Color) (color0 : Color) (bound : R) (st : Scene) :
  table_sized count table -> table_bounded bound table ->
  played count table setHSL color0 st ->
  Forall (fun p => Rabs p <= bound + steady_band POS_LERP_FACTOR)
    (positions st).
Proof. apply played_bounded. Qed.

Lemma sample_table_bounded : table_bounded 5 sample_table.
Proof.
  intros shape j x Hx.
  destruct shape, j as [|[|[|j]]]; simpl in Hx; try discriminate;
    injection Hx as <-; rewrite Rabs_right; lra.
Qed.

Lemma played_positions_bounded_witness :
  Forall (fun p => Rabs p <= 5 + steady_band POS_LERP_FACTOR)
    (positions sample_scene).
Proof.
  apply (played_positions_bounded 1 sample_table sample_setHSL sample_color 5
           sample_scene).
  - intros []; reflexivity.
  - apply sample_table_bounded.
  - apply played_mount. reflexivity.
Defined.

(** ** From the detector to the scene *)

Section Detection.
Import Gesture.

Lemma open_hand_count (e : Extended) :
  ((countFingers e =? 0)%Z
   || ((countFingers e =? 1)%Z
       && negb (isIndexExtended e) && negb (isMiddleExtended e)
       && negb (isRingExtended e) && negb (isPinkyExtended e))) = false ->
  exists k, countFingers e = Z.of_nat (S k) /\ (k < 5)%nat.
Proof.
  intros H. exists (Z.to_nat (countFingers e - 1)).
  destruct e as [[] [] [] [] []]; simpl in H; try discriminate;
    split; vm_compute; trivial; lia.
Qed.

(** X12.  A detector result whose first hand has 21 landmarks goes through
    [App] into the scene without failure: the loader is hidden, the metrics
    of that hand are stored, the positions buffer is not touched and the
    target buffer still holds the cached set of the current shape.  A fist
    keeps the shape; an open hand always selects one, the shape numbered by
    its finger count, which is never 0 nor above 5.  The other hands of the
    result are ignored. *)
Theorem detection_selects_shape (count : nat) (table : ShapeType -> list R)
    (setHSL : R -> R -> R -> Color) (landmarks : list Landmark)
    (others : list (list Landmark)) (app : AppState) (st : Scene) :
  table_sized count table -> scene_sized count st ->
  target_cached table st ->
  length landmarks = 21%nat ->
  exists m app' st',
    analyzeHand landmarks = Some m
    /\ onDetection table setHSL
         {| multiHandLandmarks := Some (landmarks :: others) |} (app, st)
       = Some (app', st')
    /\ metrics app' = Some m /\ loading app' = false
    /\ scene_sized count st' /\ target_cached table st'
    /\ positions st' = positions st
    /\ (isFist m = true ->
        currentShape st' = currentShape st
        /\ groupScale st' = 0.4 /\ rotationSpeed st' = 0.15)
    /\ (isFist m = false ->
        exists k,
          fingerCount m = Z.of_nat (S k)
          /\ shape_order !! k = Some (currentShape st')
          /\ rotationSpeed st' = 0.002
          /\ 1.0 <= groupScale st' <= 1.9).
Proof.
  intros Htab Hsz Hcached Hlen.
  destruct (extendedDigits_total landmarks Hlen) as (e & He & _).
  destruct (analyzeHand_total landmarks e Hlen He) as (m & Hm & Hfc & Hfist).
  destruct (updateTargets_fields count table setHSL m st Htab Hsz)
    as (st' & Hup & Hsz' & (Hpos & _) & Hcase).
  exists m, {| metrics := Some m; loading := false |}, st'.
  split; [assumption|]. split.
  { unfold onDetection, onResults; simpl. rewrite Hm; simpl.
    rewrite Hup. reflexivity. }
  split; [reflexivity|]. split; [reflexivity|]. split; [assumption|].
  unfold target_cached in *.
  destruct (isFist m) eqn:Hf.
  - destruct Hcase as (Hs & Ht & Hg & Hr & _).
    split; [congruence|]. split; [assumption|].
    split; [auto|]. discriminate.
  - destruct Hcase as (Hs & Ht & Hg & Hr & _).
    destruct (open_hand_count e) as (k & Hk & Hk5); [congruence|].
    destruct (lookup_lt_is_Some_2 shape_order k Hk5) as [shape Hshape].
    assert (Hsel : selectShape (currentShape st) (fingerCount m) = shape).
    { rewrite Hfc, Hk. now apply selectShape_order. }
    split.
    { rewrite Ht, Hs. destruct (decide _) as [Heq|_]; [|reflexivity].
      now rewrite Heq. }
    split; [assumption|]. split; [discriminate|]. intros _.
    exists k. split; [congruence|]. split; [congruence|].
    split; [assumption|]. rewrite Hg. apply depth_scale_range.
Qed.

Lemma detection_selects_shape_witness :
  exists m app' st',
    analyzeHand sample_open_hand = Some m
    /\ onDetection sample_table sample_setHSL
         {| multiHandLandmarks := Some (sample_open_hand :: [sample_thumb_hand]) |}
         (sample_app, sample_scene)
       = Some (app', st')
    /\ metrics app' = Some m /\ loading app' = false
    /\ scene_sized 1 st' /\ target_cached sample_table st'
    /\ positions st' = positions sample_scene
    /\ (isFist m = true ->
        currentShape st' = currentShape sample_scene
        /\ groupScale st' = 0.4 /\ rotationSpeed st' = 0.15)
    /\ (isFist m = false ->
        exists k,
          fingerCount m = Z.of_nat (S k)
          /\ shape_order !! k = Some (currentShape st')
          /\ rotationSpeed st' = 0.002
          /\ 1.0 <= groupScale st' <= 1.9).
Proof.
  apply (detection_selects_shape 1 sample_table sample_setHSL sample_open_hand
           [sample_thumb_hand] sample_app sample_scene).
  - intros []; reflexivity.
  - split; reflexivity.
  - reflexivity.
  - reflexivity.
Defined.

(** A detector result without a hand ([multiHandLandmarks] undefined or
    empty) only hides the loader: the stored metrics and the scene stay as
    they are. *)
Lemma detection_without_hand (table : ShapeType -> list R)
    (setHSL : R -> R -> R -> Color) (app : AppState) (st : Scene) :
  onDetection table setHSL {| multiHandLandmarks := None |} (app, st)
    = Some ({| metrics := metrics app; loading := false |}, st)
  /\ onDetection table setHSL {| multiHandLandmarks := Some [] |} (app, st)
     = Some ({| metrics := metrics app; loading := false |}, st).
Proof. split; reflexivity. Qed.

End Detection.

(** ** Frames without metrics updates *)

(** [n] frames in closed form, whatever the oracle draws. *)
Lemma frames_fields (count : nat) (factor : R) (st : Scene) (s : Rng) (n : nat) :
  scene_sized count st ->
  exists st_n s_n,
    frames count factor n st s = Some (st_n, s_n)
    /\ scene_sized count st_n
    /\ (draws s_n = draws s /\ used s_n = (used s + n * (count * 3))%nat)
    /\ (targetPositions st_n = targetPositions st
        /\ currentShape st_n = currentShape st
        /\ rotationSpeed st_n = rotationSpeed st
        /\ groupScale st_n = groupScale st
        /\ targetColor st_n = targetColor st)
    /\ (rotation_z st_n = rotation_z st + INR n * rotationSpeed st
        /\ rotation_y st_n = rotation_y st + INR n * (rotationSpeed st * 0.5))
    /\ (vx (scale st_n) - groupScale st
          = 0.9 ^ n * (vx (scale st) - groupScale st)
        /\ vy (scale st_n) - groupScale st
           = 0.9 ^ n * (vy (scale st) - groupScale st)
        /\ vz (scale st_n) - groupScale st
           = 0.9 ^ n * (vz (scale st) - groupScale st))
    /\ (cr (currentColor st_n) - cr (targetColor st)
          = 0.95 ^ n * (cr (currentColor st) - cr (targetColor st))
        /\ cg (currentColor st_n) - cg (targetColor st)
           = 0.95 ^ n * (cg (currentColor st) - cg (targetColor st))
        /\ cb (currentColor st_n) - cb (targetColor st)
           = 0.95 ^ n * (cb (currentColor st) - cb (targetColor st))).
Proof.
  intros Hsz. induction n as [|n IH].
  - exists st, s. split; [reflexivity|]. split; [assumption|].
    simpl. repeat split; try reflexivity; try lia; lra.
  - destruct IH as (st_n & s_n & Hrun & Hsz_n & (Hd & Hu)
                    & (Ht & Hsh & Hr & Hg & Htc) & (Hrz & Hry)
                    & (Hsx & Hsy & Hsz') & (Hcr & Hcg & Hcb)).
    destruct (animateWith_run count factor st_n s_n Hsz_n)
      as (pos' & s' & _ & Hd' & Hu' & Hl & _ & Hfr).
    eexists _, s'. rewrite frames_snoc, Hrun. split; [exact Hfr|].
    split; [split; [apply Hsz_n | exact Hl]|].
    split; [split; [congruence | lia]|].
    cbn [targetPositions currentShape rotationSpeed groupScale targetColor
         rotation_z rotation_y scale currentColor Vector3_lerp Color_lerp
         vx vy vz cr cg cb].
    split; [auto|].
    rewrite Hr, Hg, Htc, S_INR. unfold COLOR_LERP_FACTOR.
    split; [split; lra|].
    split; [repeat split; simpl; lra|]. repeat split; simpl; lra.
Qed.

(** X13.  [n] consecutive frames of a scene, with no metrics update in
    between, all run and leave the targets alone; the rotation angles have
    grown by [n] times the rotation speed and [n] times half of it; the
    distance of every scale component to the target scale has shrunk by
    0.9 ^ n and that of every colour channel to the target colour by
    0.95 ^ n; and 3 * [count] * [n] random numbers have been drawn. *)
Theorem frames_closed_form (count : nat) (factor : R) (st : Scene) (s : Rng)
    (n : nat) :
  scene_sized count st ->
  exists st_n s_n,
    frames count factor n st s = Some (st_n, s_n)
    /\ used s_n = (used s + n * (count * 3))%nat
    /\ (targetPositions st_n = targetPositions st
        /\ currentShape st_n = currentShape st
        /\ rotationSpeed st_n = rotationSpeed st
        /\ groupScale st_n = groupScale st
        /\ targetColor st_n = targetColor st)
    /\ (rotation_z st_n = rotation_z st + INR n * rotationSpeed st
        /\ rotation_y st_n = rotation_y st + INR n * (rotationSpeed st * 0.5))
    /\ (vx (scale st_n) - groupScale st
          = 0.9 ^ n * (vx (scale st) - groupScale st)
        /\ vy (scale st_n) - groupScale st
           = 0.9 ^ n * (vy (scale st) - groupScale st)
        /\ vz (scale st_n) - groupScale st
           = 0.9 ^ n * (vz (scale st) - groupScale st))
    /\ (cr (currentColor st_n) - cr (targetColor st)
          = 0.95 ^ n * (cr (currentColor st) - cr (targetColor st))
        /\ cg (currentColor st_n) - cg (targetColor st)
           = 0.95 ^ n * (cg (currentColor st) - cg (targetColor st))
        /\ cb (currentColor st_n) - cb (targetColor st)
           = 0.95 ^ n * (cb (currentColor st) - cb (targetColor st))).
Proof.
  intros Hsz.
  destruct (frames_fields count factor st s n Hsz)
    as (st_n & s_n & Hrun & _ & (_ & Hu) & Htargets & Hrot & Hscale & Hcolor).
  exists st_n, s_n. auto 10.
Qed.

Lemma frames_closed_form_witness :
  exists st_n s_n,
    frames 1 POS_LERP_FACTOR 2 sample_moving sample_rng = Some (st_n, s_n)
    /\ used s_n = (used sample_rng + 2 * (1 * 3))%nat
    /\ (targetPositions st_n = targetPositions sample_moving
        /\ currentShape st_n = currentShape sample_moving
        /\ rotationSpeed st_n = rotationSpeed sample_moving
        /\ groupScale st_n = groupScale sample_moving
        /\ targetColor st_n = targetColor sample_moving)
    /\ (rotation_z st_n
          = rotation_z sample_moving + INR 2 * rotationSpeed sample_moving
        /\ rotation_y st_n
           = rotation_y sample_moving
             + INR 2 * (rotationSpeed sample_moving * 0.5))
    /\ (vx (scale st_n) - groupScale sample_moving
          = 0.9 ^ 2 * (vx (scale sample_moving) - groupScale sample_moving)
        /\ vy (scale st_n) - groupScale sample_moving
           = 0.9 ^ 2 * (vy (scale sample_moving) - groupScale sample_moving)
        /\ vz (scale st_n) - groupScale sample_moving
           = 0.9 ^ 2 * (vz (scale sample_moving) - groupScale sample_moving))
    /\ (cr (currentColor st_n) - cr (targetColor sample_moving)
          = 0.95 ^ 2
            * (cr (currentColor sample_moving) - cr (targetColor sample_moving))
        /\ cg (currentColor st_n) - cg (targetColor sample_moving)
           = 0.95 ^ 2
             * (cg (currentColor sample_moving) - cg (targetColor sample_moving))
        /\ cb (currentColor st_n) - cb (targetColor sample_moving)
           = 0.95 ^ 2
             * (cb (currentColor sample_moving) - cb (targetColor sample_moving))).
Proof.
  apply (frames_closed_form 1 POS_LERP_FACTOR sample_moving sample_rng 2).
  split; reflexivity.
Defined.

Lemma geometric_vanishes (D eps : R) :
  0 <= D -> 0 < eps ->
  exists K, forall n, (K <= n)%nat -> 0.95 ^ n * D < eps.
Proof.
  intros HD Heps.
  destruct (pow_lt_1_zero 0.95) with (y := eps / (D + 1)) as [K HK].
  { apply Rabs_def1; lra. }
  { apply Rdiv_lt_0_compat; lra. }
  exists K. intros n Hn. specialize (HK n Hn).
  assert (Hpow : 0 <= 0.95 ^ n) by (apply pow_le; lra).
  rewrite Rabs_right in HK by lra.
  apply (Rmult_lt_compat_r (D + 1)) in HK; [|lra].
  unfold Rdiv in HK. rewrite Rmult_assoc, Rinv_l in HK by lra. nra.
Qed.

Lemma shrunk_gap (q d D eps : R) (n : nat) :
  0 <= q <= 0.95 -> Rabs d <= D -> 0.95 ^ n * D < eps ->
  Rabs (q ^ n * d) < eps.
Proof.
  intros Hq Hd Hn.
  assert (Hqn : 0 <= q ^ n) by (apply pow_le; lra).
  assert (Hle : q ^ n <= 0.95 ^ n) by (apply pow_incr; lra).
  rewrite Rabs_mult, (Rabs_right (q ^ n)) by lra.
  pose proof (Rabs_pos d). nra.
Qed.

(** X14.  Left alone, the rendered scale converges to the target scale and
    the rendered colour to the target colour: for every eps > 0 there is a
    frame from which on every scale component and every colour channel is
    within eps of its target. *)
Theorem scale_and_color_converge (count : nat) (factor : R) (st : Scene)
    (s : Rng) (eps : R) :
  scene_sized count st -> 0 < eps ->
  exists K, forall n, (K <= n)%nat ->
    exists st_n s_n,
      frames count factor n st s = Some (st_n, s_n)
      /\ Rabs (vx (scale st_n) - groupScale st) < eps
      /\ Rabs (vy (scale st_n) - groupScale st) < eps
      /\ Rabs (vz (scale st_n) - groupScale st) < eps
      /\ Rabs (cr (currentColor st_n) - cr (targetColor st)) < eps
      /\ Rabs (cg (currentColor st_n) - cg (targetColor st)) < eps
      /\ Rabs (cb (currentColor st_n) - cb (targetColor st)) < eps.
Proof.
  intros Hsz Heps.
  set (D := Rabs (vx (scale st) - groupScale st)
            + Rabs (vy (scale st) - groupScale st)
            + Rabs (vz (scale st) - groupScale st)
            + Rabs (cr (currentColor st) - cr (targetColor st))
            + Rabs (cg (currentColor st) - cg (targetColor st))
            + Rabs (cb (currentColor st) - cb (targetColor st))).
  pose proof (Rabs_pos (vx (scale st) - groupScale st)).
  pose proof (Rabs_pos (vy (scale st) - groupScale st)).
  pose proof (Rabs_pos (vz (scale st) - groupScale st)).
  pose proof (Rabs_pos (cr (currentColor st) - cr (targetColor st))).
  pose proof (Rabs_pos (cg (currentColor st) - cg (targetColor st))).
  pose proof (Rabs_pos (cb (currentColor st) - cb (targetColor st))).
  destruct (geometric_vanishes D eps) as [K HK]; [unfold D; lra | assumption |].
  exists K. intros n Hn. specialize (HK n Hn).
  destruct (frames_fields count factor st s n Hsz)
    as (st_n & s_n & Hrun & _ & _ & _ & _ & (Hsx & Hsy & Hsz')
        & (Hcr & Hcg & Hcb)).
  exists st_n, s_n. split; [assumption|].
  rewrite Hsx, Hsy, Hsz', Hcr, Hcg, Hcb.
  repeat split; apply (shrunk_gap _ _ D); try assumption; try lra;
    unfold D; lra.
Qed.

Lemma scale_and_color_converge_witness :
  exists K, forall n, (K <= n)%nat ->
    exists st_n s_n,
      frames 1 POS_LERP_FACTOR n sample_moving sample_rng = Some (st_n, s_n)
      /\ Rabs (vx (scale st_n) - groupScale sample_moving) < 0.01
      /\ Rabs (vy (scale st_n) - groupScale sample_moving) < 0.01
      /\ Rabs (vz (scale st_n) - groupScale sample_moving) < 0.01
      /\ Rabs (cr (currentColor st_n) - cr (targetColor sample_moving)) < 0.01
      /\ Rabs (cg (currentColor st_n) - cg (targetColor sample_moving)) < 0.01
      /\ Rabs (cb (currentColor st_n) - cb (targetColor sample_moving)) < 0.01.
Proof.
  apply (scale_and_color_converge 1 POS_LERP_FACTOR sample_moving sample_rng 0.01).
  - split; reflexivity.
  - lra.
Defined.

(** ** The shape generator as a list builder *)

Lemma insert_after (done : list R) (a x : R) (rest : list R) (i : nat) :
  i = length done -> <[i := x]> (done ++ a :: rest) = done ++ x :: rest.
Proof.
  intros ->. rewrite insert_app_r_alt by lia.
  now rewrite Nat.sub_diag.
Qed.

Lemma bind_fail {A B : Type} (m : M A) (f : A -> M B) (s : Rng) :
  m s = None -> (m ≫= f) s = None.
Proof. intros H. unfold mbind, M_bind. now rewrite H. Qed.

Lemma M_bind_ret {A : Type} (m : M A) (s : Rng) : (m ≫= mret) s = m s.
Proof.
  unfold mbind, M_bind, mret, M_ret. destruct (m s) as [[a s']|]; reflexivity.
Qed.

(** The loop of [generate], started on a buffer whose first [i] points are
    written and whose [n] last points are still 0. *)
Lemma fill_loop (fn : nat -> M Vec3) (n i : nat) (done : list R) (s : Rng) :
  length done = (i * 3)%nat ->
  for_loop n i
    (fun i arr =>
       p ← fn i;
       arr ← store (i * 3) (vx p) arr;
       arr ← store (i * 3 + 1) (vy p) arr;
       store (i * 3 + 2) (vz p) arr)
    (done ++ replicate (n * 3) 0) s
  = (rest ← gen_points n i fn; mret (done ++ rest)) s.
Proof.
  revert i done s. induction n as [|n IH]; intros i done s Hlen.
  - reflexivity.
  - cbn [for_loop gen_points].
    destruct (fn i s) as [[p s1]|] eqn:Hfn.
    + assert (Hbody :
        (p ← fn i;
         arr ← store (i * 3) (vx p) (done ++ replicate (S n * 3) 0);
         arr ← store (i * 3 + 1) (vy p) arr;
         store (i * 3 + 2) (vz p) arr) s
        = Some ((done ++ [vx p; vy p; vz p]) ++ replicate (n * 3) 0, s1)).
      { rewrite (bind_run _ _ _ _ _ Hfn).
        change (S n * 3)%nat with (S (S (S (n * 3)))). cbn [replicate].
        rewrite (bind_run (store (i * 3) (vx p) _) _ s1 s1
                   (done ++ vx p :: 0 :: 0 :: replicate (n * 3) 0)); cycle 1.
        { rewrite store_run by (rewrite length_app; simpl; lia).
          now rewrite insert_after by lia. }
        rewrite (bind_run (store (i * 3 + 1) (vy p) _) _ s1 s1
                   (done ++ vx p :: vy p :: 0 :: replicate (n * 3) 0)); cycle 1.
        { rewrite store_run by (rewrite length_app; simpl; lia).
          change (done ++ vx p :: 0 :: 0 :: replicate (n * 3) 0)
            with (done ++ [vx p] ++ 0 :: 0 :: replicate (n * 3) 0).
          rewrite app_assoc, insert_after by (rewrite length_app; simpl; lia).
          now rewrite <- app_assoc. }
        rewrite store_run by (rewrite length_app; simpl; lia).
        change (done ++ vx p :: vy p :: 0 :: replicate (n * 3) 0)
          with (done ++ [vx p; vy p] ++ 0 :: replicate (n * 3) 0).
        rewrite app_assoc, insert_after by (rewrite length_app; simpl; lia).
        now rewrite <- !app_assoc. }
      rewrite (bind_run _ _ _ _ _ Hbody).
      rewrite (IH (S i) (done ++ [vx p; vy p; vz p]) s1)
        by (rewrite length_app; simpl; lia).
      destruct (gen_points n (S i) fn s1) as [[rest s2]|] eqn:Hrest.
      * rewrite (bind_run _ _ _ _ _ Hrest).
        erewrite (bind_run (fn i ≫= _)); cycle 1.
        { rewrite (bind_run _ _ _ _ _ Hfn), (bind_run _ _ _ _ _ Hrest).
          reflexivity. }
        unfold mret, M_ret. now rewrite <- app_assoc.
      * rewrite (bind_fail _ _ _ Hrest).
        rewrite (bind_fail (fn i ≫= _)); [reflexivity|].
        rewrite (bind_run _ _ _ _ _ Hfn). now apply bind_fail.
    + rewrite (bind_fail (fn i ≫= _)) by now apply bind_fail.
      rewrite (bind_fail (fn i ≫= _)) by now apply bind_fail.
      reflexivity.
Qed.

(** The loop of [generate] and the list builder agree. *)
Lemma generate_gen_points (count : nat) (fn : nat -> M Vec3) (s : Rng) :
  generate count fn s = gen_points count 0 fn s.
Proof.
  unfold generate, new_Float32Array.
  etransitivity; [apply (fill_loop fn count 0 [] s); reflexivity|].
  apply (M_bind_ret (gen_points count 0 fn)).
Qed.

(** X15.  [generate] fills its buffer exactly as a list builder would: the
    result is the coordinates of [fn 0], [fn 1], ... in this order, three
    per point, the calls made in this order, and it fails exactly when a
    call of [fn] fails; no store leaves the buffer. *)
Theorem generate_builds_list (count : nat) (fn : nat -> M Vec3) (s : Rng) :
  generate count fn s = gen_points count 0 fn s.
Proof. apply generate_gen_points. Qed.

(** A generator function that always returns and makes [c] draws per call
    builds [n] points with [n * c] draws. *)
Lemma gen_points_draws (c : nat) (fn : nat -> M Vec3) (n i : nat) (s : Rng) :
  (forall i s, exists p s',
      fn i s = Some (p, s') /\ draws s' = draws s
      /\ used s' = (used s + c)%nat) ->
  exists arr s',
    gen_points n i fn s = Some (arr, s')
    /\ draws s' = draws s /\ used s' = (used s + n * c)%nat
    /\ length arr = (n * 3)%nat.
Proof.
  intros Hfn. revert i s. induction n as [|n IH]; intros i s.
  - exists [], s. repeat split; simpl; lia.
  - destruct (Hfn i s) as (p & s1 & Hp & Hd1 & Hu1).
    destruct (IH (S i) s1) as (rest & s2 & Hrest & Hd2 & Hu2 & Hlen).
    exists (vx p :: vy p :: vz p :: rest), s2. split.
    + cbn [gen_points].
      rewrite (bind_run _ _ _ _ _ Hp), (bind_run _ _ _ _ _ Hrest). reflexivity.
    + split; [congruence|]. split; [lia|]. simpl. lia.
Qed.

Ltac count_draws :=
  unfold Math_random, mbind, M_bind, mret, M_ret; simpl;
  eexists _, _; split; [reflexivity|]; simpl; split; [reflexivity | lia].

Lemma shape_fn_draws (count : nat) (shape : ShapeType) (i : nat) (s : Rng) :
  exists p s',
    shape_fn count shape i s = Some (p, s') /\ draws s' = draws s
    /\ used s' = (used s
                  + match shape with
                    | HEART => 2 | FLOWER => 1 | PORTAL => 4
                    | HEXAGRAM => 1 | TREE => 0
                    end)%nat.
Proof.
  destruct shape; simpl.
  - unfold heart. count_draws.
  - unfold flower. count_draws.
  - unfold portal.
    pose proof (Nat.mod_upper_bound i 3 ltac:(lia)) as Hmod.
    destruct (i mod 3)%nat as [|[|[|n]]]; [| | |lia]; count_draws.
  - unfold hexagram. count_draws.
  - unfold tree. count_draws.
Qed.

Lemma triples_length {A : Type} (f : A -> Vec3) (l : list A) :
  length (flat_map (fun a => [vx (f a); vy (f a); vz (f a)]) l)
  = (length l * 3)%nat.
Proof. induction l as [|a l IH]; simpl; [reflexivity | now rewrite IH]. Qed.

Lemma tree_points (count n i : nat) (s : Rng) :
  gen_points n i (tree count) s
  = Some (flat_map (fun i => [vx (tree_vertex count i); vy (tree_vertex count i);
                              vz (tree_vertex count i)]) (seq i n), s).
Proof.
  revert i s. induction n as [|n IH]; intros i s; [reflexivity|].
  cbn [gen_points].
  rewrite (bind_run (tree count i) _ s s (tree_vertex count i)) by reflexivity.
  rewrite (bind_run _ _ _ _ _ (IH (S i) s)). reflexivity.
Qed.

(** X16.  Building the five point sets always succeeds, at every particle
    count and whatever [Math.random] returns; it makes eight calls of
    [Math.random] per particle (two for HEART, one for FLOWER, four for
    PORTAL, one for HEXAGRAM, none for TREE); every set has three
    coordinates per particle; and the TREE set is the same list in every
    session. *)
Theorem shapes_oracle_use (count : nat) (s : Rng) :
  exists table s',
    shapes count s = Some (table, s')
    /\ draws s' = draws s
    /\ used s' = (used s + 8 * count)%nat
    /\ (forall shape, length (table shape) = (count * 3)%nat)
    /\ table TREE = tree_set count.
Proof.
  unfold shapes.
  destruct (gen_points_draws 2 (shape_fn count HEART) count 0 s)
    as (h & s1 & Hh & Hd1 & Hu1 & Hl1).
  { intros i t. apply (shape_fn_draws count HEART). }
  destruct (gen_points_draws 1 (shape_fn count FLOWER) count 0 s1)
    as (f & s2 & Hf & Hd2 & Hu2 & Hl2).
  { intros i t. apply (shape_fn_draws count FLOWER). }
  destruct (gen_points_draws 4 (shape_fn count PORTAL) count 0 s2)
    as (p & s3 & Hp & Hd3 & Hu3 & Hl3).
  { intros i t. apply (shape_fn_draws count PORTAL). }
  destruct (gen_points_draws 1 (shape_fn count HEXAGRAM) count 0 s3)
    as (x & s4 & Hx & Hd4 & Hu4 & Hl4).
  { intros i t. apply (shape_fn_draws count HEXAGRAM). }
  pose proof (tree_points count count 0 s4) as Ht.
  rewrite <- generate_gen_points in Hh, Hf, Hp, Hx.
  change (tree count) with (shape_fn count TREE) in Ht.
  rewrite <- generate_gen_points in Ht.
  rewrite (bind_run _ _ _ _ _ Hh), (bind_run _ _ _ _ _ Hf),
    (bind_run _ _ _ _ _ Hp), (bind_run _ _ _ _ _ Hx), (bind_run _ _ _ _ _ Ht).
  eexists _, _. split; [reflexivity|]. split; [congruence|]. split; [lia|].
  split; [|reflexivity].
  intros []; try assumption.
  rewrite triples_length. now rewrite length_seq.
Qed.

(** ** The geometry of the point sets *)

Lemma polar_radius (rho a : R) :
  (rho * cos a) ^ 2 + (rho * sin a) ^ 2 = rho ^ 2.
Proof.
  pose proof (sin2_cos2 a) as H. unfold Rsqr in H.
  replace ((rho * cos a) ^ 2 + (rho * sin a) ^ 2)
    with (rho ^ 2 * (sin a * sin a + cos a * cos a)) by ring.
  rewrite H. ring.
Qed.

Lemma bounded_product (a c A : R) :
  - A <= a <= A -> -1 <= c <= 1 -> - A <= a * c <= A.
Proof. intros Ha Hc. split; nra. Qed.

Lemma cube_bound (c : R) : -1 <= c <= 1 -> -1 <= c ^ 3 <= 1.
Proof.
  intros Hc. assert (H2 : 0 <= c * c <= 1) by nra.
  replace (c ^ 3) with (c * (c * c)) by ring. split; nra.
Qed.

Lemma abs_le_of_bounds (x A : R) : - A <= x <= A -> Rabs x <= A.
Proof. intros H. apply Rabs_le. exact H. Qed.

(** Every coordinate of a documented point is within [SHAPE_BOUND] of 0. *)
Lemma shape_point_bounded (count : nat) (shape : ShapeType) (i : nat) (p : Vec3) :
  shape_point count shape i p ->
  Rabs (vx p) <= SHAPE_BOUND /\ Rabs (vy p) <= SHAPE_BOUND
  /\ Rabs (vz p) <= SHAPE_BOUND.
Proof.
  unfold SHAPE_BOUND. destruct shape; simpl.
  - intros (r & Hr & Hx & Hy & Hz).
    set (t := INR i / INR count * (2 * PI)) in *.
    pose proof (cube_bound (sin t) (SIN_bound t)) as Hs.
    pose proof (COS_bound t). pose proof (COS_bound (2 * t)).
    pose proof (COS_bound (3 * t)). pose proof (COS_bound (4 * t)).
    rewrite Hx, Hy. repeat split; apply abs_le_of_bounds; try lra.
    + replace (16 * sin t ^ 3 * r) with (16 * r * sin t ^ 3) by ring.
      pose proof (bounded_product (16 * r) (sin t ^ 3) 9.6). lra.
    + split; nra.
  - intros (Hx & Hy & Hz).
    set (t := INR i / INR count * (2 * PI) * 12) in *.
    pose proof (COS_bound (5 * t)). pose proof (COS_bound t).
    pose proof (SIN_bound t).
    rewrite Hx, Hy. repeat split; apply abs_le_of_bounds; try lra.
    + pose proof (bounded_product (8 * cos (5 * t) + 3) (cos t) 11). lra.
    + pose proof (bounded_product (8 * cos (5 * t) + 3) (sin t) 11). lra.
  - intros (rad & angle & noise & Hrad & Hangle & Hnoise & Hx & Hy & Hz).
    assert (Hrho : -0.25 <= rad + noise <= 11.75)
      by (destruct (i mod 3)%nat as [|[|n]]; lra).
    pose proof (COS_bound angle). pose proof (SIN_bound angle).
    rewrite Hx, Hy. repeat split; apply abs_le_of_bounds; try lra.
    + pose proof (bounded_product (rad + noise) (cos angle) 11.75). lra.
    + pose proof (bounded_product (rad + noise) (sin angle) 11.75). lra.
  - intros (Hx & Hy & Hz).
    set (a := INR i / INR count * (2 * PI)) in *.
    pose proof (SIN_bound (6 * a)). pose proof (COS_bound a).
    pose proof (SIN_bound a).
    rewrite Hx, Hy. repeat split; apply abs_le_of_bounds; try lra.
    + pose proof (bounded_product (9 * (1.2 + 0.3 * sin (6 * a))) (cos a) 13.5).
      lra.
    + pose proof (bounded_product (9 * (1.2 + 0.3 * sin (6 * a))) (sin a) 13.5).
      lra.
  - intros (Hy & Hyr & Hr & Hx & Hz).
    set (pct := INR i / INR count) in *.
    pose proof (COS_bound (pct * (2 * PI) * 10)).
    pose proof (SIN_bound (pct * (2 * PI) * 10)).
    rewrite Hx, Hz. repeat split; apply abs_le_of_bounds; try lra.
    + pose proof (bounded_product (pct * 8) (cos (pct * (2 * PI) * 10)) 8). lra.
    + pose proof (bounded_product (pct * 8) (sin (pct * (2 * PI) * 10)) 8). lra.
Qed.

Lemma point_at_covers (arr : list R) (j : nat) (x : R) :
  arr !! j = Some x ->
  forall p, point_at arr (j / 3) = Some p ->
    x = vx p \/ x = vy p \/ x = vz p.
Proof.
  intros Hx p Hp. unfold point_at in Hp.
  pose proof (Nat.div_mod_eq j 3) as Hdiv.
  pose proof (Nat.mod_upper_bound j 3 ltac:(lia)) as Hmod.
  destruct (arr !! (j / 3 * 3)%nat) as [a|] eqn:Ha,
    (arr !! (j / 3 * 3 + 1)%nat) as [b|] eqn:Hb,
    (arr !! (j / 3 * 3 + 2)%nat) as [c|] eqn:Hc;
    try discriminate Hp.
  injection Hp as <-. cbn [vx vy vz].
  assert (Hcase : j = (j / 3 * 3)%nat \/ j = (j / 3 * 3 + 1)%nat
                  \/ j = (j / 3 * 3 + 2)%nat) by lia.
  destruct Hcase as [Hj | [Hj | Hj]]; rewrite Hj in Hx.
  - left. congruence.
  - right; left. congruence.
  - right; right. congruence.
Qed.

(** The cached point sets are sized and inside the box. *)
Lemma shapes_box (count : nat) (s : Rng) :
  unit_draws s ->
  exists table s',
    shapes count s = Some (table, s')
    /\ table_sized count table
    /\ table_bounded SHAPE_BOUND table.
Proof.
  intros Hs.
  destruct (shapes_table count s Hs) as (table & s' & Hrun & _ & Htab).
  exists table, s'. split; [assumption|]. split.
  - intros shape. apply Htab.
  - intros shape j x Hx. destruct (Htab shape) as [Hlen Hpts].
    assert (Hj : (j < count * 3)%nat)
      by (rewrite <- Hlen; eapply lookup_lt_Some; eassumption).
    assert (Hi : (j / 3 < count)%nat)
      by (apply Nat.Div0.div_lt_upper_bound; lia).
    destruct (Hpts (j / 3)%nat Hi) as (p & Hp & Hshape).
    destruct (shape_point_bounded count shape _ p Hshape) as (Bx & By & Bz).
    destruct (point_at_covers _ j x Hx p Hp) as [-> | [-> | ->]]; assumption.
Qed.

(** X17.  Every coordinate of the five cached point sets is within 13.5 of
    0, whatever [Math.random] returns in [0, 1). *)
Theorem shapes_in_box (count : nat) (s : Rng) :
  unit_draws s ->
  exists table s',
    shapes count s = Some (table, s')
    /\ forall shape, Forall (fun x => Rabs x <= SHAPE_BOUND) (table shape).
Proof.
  intros Hs. destruct (shapes_box count s Hs) as (table & s' & Hrun & _ & Hb).
  exists table, s'. split; [assumption|].
  intros shape. apply Forall_lookup. intros j x. apply Hb.
Qed.

Lemma shapes_in_box_witness :
  exists table s',
    shapes 2 sample_rng = Some (table, s')
    /\ forall shape, Forall (fun x => Rabs x <= SHAPE_BOUND) (table shape).
Proof.
  apply (shapes_in_box 2 sample_rng). intros k. simpl. lra.
Defined.

(** X18.  In the program as it is (4000 particles, the generated point sets,
    smoothing factor 0.08) no particle flies away: in every scene of a
    session every coordinate of the positions buffer is within 13.8125 of
    0, whatever [Math.random] returns in [0, 1). *)
Theorem particles_stay_in_box (setHSL : R -> R -> R -> Color) (color0 : Color)
    (s : Rng) :
  unit_draws s ->
  exists table s',
    shapes PARTICLE_COUNT s = Some (table, s')
    /\ forall st, played PARTICLE_COUNT table setHSL color0 st ->
         Forall (fun p => Rabs p <= PARTICLE_BOUND) (positions st).
Proof.
  intros Hs.
  destruct (shapes_box PARTICLE_COUNT s Hs) as (table & s' & Hrun & Hsz & Hb).
  exists table, s'. split; [assumption|]. intros st Hplayed.
  pose proof (played_bounded PARTICLE_COUNT table setHSL color0 SHAPE_BOUND st
                Hsz Hb Hplayed) as H.
  replace PARTICLE_BOUND with (SHAPE_BOUND + steady_band POS_LERP_FACTOR);
    [exact H|].
  unfold PARTICLE_BOUND, SHAPE_BOUND, steady_band, JITTER_BOUND, POS_LERP_FACTOR.
  lra.
Qed.

Lemma particles_stay_in_box_witness :
  exists table s',
    shapes PARTICLE_COUNT sample_rng = Some (table, s')
    /\ forall st, played PARTICLE_COUNT table sample_setHSL sample_color st ->
         Forall (fun p => Rabs p <= PARTICLE_BOUND) (positions st).
Proof.
  apply (particles_stay_in_box sample_setHSL sample_color sample_rng).
  intros k. simpl. lra.
Defined.

(** X19.  Where the points of four of the cached sets lie: a FLOWER point
    within 11 of the z axis; a PORTAL point on its ring around the z axis
    (between 9.75 and 11.75 for the outer layer, between 7.75 and 9.25 for
    the middle layer, within 9.25 for the inner layer); a HEXAGRAM point
    between 8.1 and 13.5 from the z axis; a TREE point on the cone around
    the y axis with apex at y = 8 and radius (8 - y) * 4 / 9. *)
Theorem shapes_radii (count : nat) (s : Rng) :
  unit_draws s ->
  exists table s',
    shapes count s = Some (table, s')
    /\ forall i, (i < count)%nat ->
         (exists p, point_at (table FLOWER) i = Some p
                    /\ radius2_xy p <= 11 ^ 2)
         /\ (exists p, point_at (table PORTAL) i = Some p
                       /\ match (i mod 3)%nat with
                          | 0%nat => 9.75 ^ 2 <= radius2_xy p < 11.75 ^ 2
                          | 1%nat => 7.75 ^ 2 <= radius2_xy p < 9.25 ^ 2
                          | _ => radius2_xy p < 9.25 ^ 2
                          end)
         /\ (exists p, point_at (table HEXAGRAM) i = Some p
                       /\ 8.1 ^ 2 <= radius2_xy p <= 13.5 ^ 2)
         /\ (exists p, point_at (table TREE) i = Some p
                       /\ radius2_xz p = ((8 - vy p) * (4 / 9)) ^ 2).
Proof.
  intros Hs.
  destruct (shapes_table count s Hs) as (table & s' & Hrun & _ & Htab).
  exists table, s'. split; [assumption|]. intros i Hi.
  destruct (proj2 (Htab FLOWER) i Hi) as (pf & Hpf & Hf).
  destruct (proj2 (Htab PORTAL) i Hi) as (pp & Hpp & Hp).
  destruct (proj2 (Htab HEXAGRAM) i Hi) as (ph & Hph & Hh).
  destruct (proj2 (Htab TREE) i Hi) as (pt & Hpt & Ht).
  simpl in Hf, Hp, Hh, Ht.
  split; [|split; [|split]].
  - exists pf. split; [assumption|]. destruct Hf as (Hx & Hy & _).
    unfold radius2_xy. rewrite Hx, Hy, polar_radius.
    pose proof (COS_bound (5 * (INR i / INR count * (2 * PI) * 12))). nra.
  - exists pp. split; [assumption|].
    destruct Hp as (rad & angle & noise & Hrad & _ & Hnoise & Hx & Hy & _).
    unfold radius2_xy. rewrite Hx, Hy, polar_radius.
    destruct (i mod 3)%nat as [|[|n]]; try split; nra.
  - exists ph. split; [assumption|]. destruct Hh as (Hx & Hy & _).
    unfold radius2_xy. rewrite Hx, Hy, polar_radius.
    pose proof (SIN_bound (6 * (INR i / INR count * (2 * PI)))). split; nra.
  - exists pt. split; [assumption|].
    destruct Ht as (Hy & _ & _ & Hx & Hz).
    unfold radius2_xz. rewrite Hx, Hz, polar_radius, Hy.
    set (pct := INR i / INR count).
    replace ((8 - (8 - pct * 18)) * (4 / 9)) with (pct * 8) by lra.
    reflexivity.
Qed.

Lemma shapes_radii_witness :
  exists table s',
    shapes 2 sample_rng = Some (table, s')
    /\ forall i, (i < 2)%nat ->
         (exists p, point_at (table FLOWER) i = Some p
                    /\ radius2_xy p <= 11 ^ 2)
         /\ (exists p, point_at (table PORTAL) i = Some p
                       /\ match (i mod 3)%nat with
                          | 0%nat => 9.75 ^ 2 <= radius2_xy p < 11.75 ^ 2
                          | 1%nat => 7.75 ^ 2 <= radius2_xy p < 9.25 ^ 2
                          | _ => radius2_xy p < 9.25 ^ 2
                          end)
         /\ (exists p, point_at (table HEXAGRAM) i = Some p
                       /\ 8.1 ^ 2 <= radius2_xy p <= 13.5 ^ 2)
         /\ (exists p, point_at (table TREE) i = Some p
                       /\ radius2_xz p = ((8 - vy p) * (4 / 9)) ^ 2).
Proof.
  apply (shapes_radii 2 sample_rng). intros k. simpl. lra.
Defined.

(** ** The steady band *)

(** X20.  Once within the steady band, always within it: with the targets
    left alone and a smoothing factor in (0, 1], if every coordinate is
    within 0.025 / factor of its target, it still is after any number of
    frames, whatever [Math.random] returns in [0, 1). *)
Theorem steady_band_absorbing (count : nat) (factor : R) (st : Scene) (s : Rng)
    (n : nat) :
  0 < factor <= 1 -> scene_sized count st -> unit_draws s ->
  (forall j, gap (targetPositions st) (positions st) j <= steady_band factor) ->
  exists st_n s_n,
    frames count factor n st s = Some (st_n, s_n)
    /\ forall j,
         gap (targetPositions st) (positions st_n) j <= steady_band factor.
Proof.
  intros Hf Hsz Hs Hin.
  destruct (frames_run count factor st s n Hf Hsz Hs)
    as (st_n & s_n & Hrun & _ & _ & _ & Hgap).
  exists st_n, s_n. split; [assumption|]. intros j.
  specialize (Hgap j). specialize (Hin j).
  assert (Hpow : 0 <= (1 - factor) ^ n) by (apply pow_le; lra).
  nra.
Qed.

Lemma steady_band_absorbing_witness :
  exists st_n s_n,
    frames 1 POS_LERP_FACTOR 3 sample_lagging sample_rng = Some (st_n, s_n)
    /\ forall j,
         gap (targetPositions sample_lagging) (positions st_n) j
         <= steady_band POS_LERP_FACTOR.
Proof.
  apply (steady_band_absorbing 1 POS_LERP_FACTOR sample_lagging sample_rng 3).
  - unfold POS_LERP_FACTOR. lra.
  - split; reflexivity.
  - intros k. simpl. lra.
  - intros j. unfold gap, steady_band, JITTER_BOUND, POS_LERP_FACTOR.
    destruct j as [|[|[|j]]]; simpl; try lra;
      rewrite Rabs_left by lra; lra.
Defined.

(** X21.  The steady band is attained: when [Math.random] keeps returning
    0, a coordinate that is 0.3125 below its target is put back where it
    was by every frame, so the positions buffer does not move. *)
Theorem steady_band_attained (count : nat) (st : Scene) (s : Rng) :
  scene_sized count st ->
  (forall k, draws s k = 0) ->
  (forall j p t, positions st !! j = Some p ->
     targetPositions st !! j = Some t ->
     p = t - steady_band POS_LERP_FACTOR) ->
  exists st' s',
    animateWith count POS_LERP_FACTOR st s = Some (st', s')
    /\ positions st' = positions st.
Proof.
  intros Hsz Hzero Hlag.
  destruct (animateWith_run count POS_LERP_FACTOR st s Hsz)
    as (pos' & s' & _ & _ & _ & Hl & Hj & Hrun).
  eexists _, s'. split; [exact Hrun|]. simpl.
  destruct Hsz as [Htl Hpl].
  apply list_eq. intros j.
  destruct (decide (j < count * 3)%nat) as [Hlt|Hge].
  - rewrite (Hj j Hlt). unfold moved, jitter.
    destruct (lookup_lt_is_Some_2 (positions st) j) as [p Hp]; [lia|].
    destruct (lookup_lt_is_Some_2 (targetPositions st) j) as [t Ht]; [lia|].
    rewrite Hp, Ht, Hzero. simpl. f_equal.
    pose proof (Hlag j p t Hp Ht) as Heq.
    unfold steady_band, JITTER_BOUND, POS_LERP_FACTOR in *. lra.
  - rewrite !lookup_ge_None_2 by lia. reflexivity.
Qed.

Lemma steady_band_attained_witness :
  exists st' s',
    animateWith 1 POS_LERP_FACTOR sample_lagging sample_zero_rng = Some (st', s')
    /\ positions st' = positions sample_lagging.
Proof.
  apply (steady_band_attained 1 sample_lagging sample_zero_rng).
  - split; reflexivity.
  - reflexivity.
  - intros j p t.
    destruct j as [|[|[|j]]]; simpl; intros [= <-] [= <-];
      unfold steady_band, JITTER_BOUND, POS_LERP_FACTOR; lra.
Defined.

(** ** The finger counts and the shapes *)

(** X22.  The finger counts 1 to 5 and the five shapes correspond one to
    one: every shape is selected by exactly one finger count between 1 and
    5, whatever the current shape is. *)
Theorem selectShape_one_to_one (current shape : ShapeType) :
  exists k,
    (1 <= k <= 5)%Z
    /\ selectShape current k = shape
    /\ forall k', (1 <= k' <= 5)%Z -> selectShape current k' = shape -> k' = k.
Proof.
  assert (Hcases : forall k', (1 <= k' <= 5)%Z ->
            k' = 1%Z \/ k' = 2%Z \/ k' = 3%Z \/ k' = 4%Z \/ k' = 5%Z)
    by (intros; lia).
  destruct shape;
    [exists 1%Z | exists 2%Z | exists 3%Z | exists 4%Z | exists 5%Z];
    (split; [lia|]; split; [reflexivity|]);
    intros k' Hk' Hsel;
    destruct (Hcases k' Hk') as [-> | [-> | [-> | [-> | ->]]]];
    unfold selectShape in Hsel; simpl in Hsel; congruence.
Qed.
